(** * Fl_Terminal: the terminal core of FLTK, embedded in Rocq

    This development embeds the protected helper classes declared in
    [fltk/hdr/Fl_Terminal.h] (CharStyle, Cursor, Utf8Char, RingBuffer,
    Selection, EscapeSeq, PartialUtf8Buf) and states the properties of the
    terminal specification over them.

    Conventions of the embedding.
    - A C++ [int] is a [Z].  The increments [++col_] and [++row_] of the
      cursor are written with the wrap-around of a 32-bit [int] ([to_int]):
      signed overflow is undefined in the language and wraps in the
      compiled code.  The other sums on [int] are taken in the executions
      in which they stay inside the [int] range.
    - [uchar] and [Fl_Color] (an [unsigned int]) are [Z]; where an [int]
      expression is assigned to one of them the conversion is written out
      ([to_uchar], [to_color]), a parameter of the type itself is stored as
      it is.
    - A [char] of the byte stream is the [Z] of its unsigned value, 0..255.
    - The operator [%] of C++ truncates towards zero: it is [Z.rem].
    - Inline member functions of the header are translated line by line.
      Member functions that the header only declares (their bodies are in
      Fl_Terminal.cpp) are marked as modelled from the specification. *)

From Stdlib Require Import ZArith List Lia Bool.
From stdpp Require Import base list.
Import ListNotations.
Local Open Scope Z_scope.

(* ===================================================================== *)
(** ** Machine arithmetic                                                  *)
(* ===================================================================== *)

Module CInt.

(** Conversion to [unsigned char]. *)
Definition to_uchar (z : Z) : Z := z mod 256.

(** Conversion to [Fl_Color], a 32-bit [unsigned int]. *)
Definition to_color (z : Z) : Z := z mod 4294967296.

(** The [%] operator on [int]. *)
Definition c_rem (a b : Z) : Z := Z.rem a b.


(** The least and the greatest [int] (32 bits). *)
Definition INT_MIN : Z := -2147483648.
Definition INT_MAX : Z := 2147483647.

(** The result of an arithmetic operation stored in an [int]: the value
    is kept when it is an [int], and wraps around (two's complement)
    when it is not, as the compiled code does. *)
Definition to_int (z : Z) : Z := (z + 2147483648) mod 4294967296 - 2147483648.

End CInt.

(* ===================================================================== *)
(** ** Enumerations of Fl_Terminal                                         *)
(* ===================================================================== *)

Module Attrib.
Definition NORMAL    : Z := 0x00.
Definition BOLD      : Z := 0x01.
Definition DIM       : Z := 0x02.
Definition ITALIC    : Z := 0x04.
Definition UNDERLINE : Z := 0x08.
Definition INVERSE   : Z := 0x20.
Definition STRIKEOUT : Z := 0x80.
End Attrib.

Module CharFlags.
Definition FG_XTERM  : Z := 0x01.
Definition BG_XTERM  : Z := 0x02.
Definition EOL       : Z := 0x04.
Definition COLORMASK : Z := Z.lor FG_XTERM BG_XTERM.
End CharFlags.

(* ===================================================================== *)
(** ** class CharStyle                                                     *)
(* ===================================================================== *)

Module CharStyle.
Import CInt.

Record t : Type := mk {
  attrib_         : Z;   (* uchar: bold, underline.. *)
  charflags_      : Z;   (* uchar: CharFlags *)
  fgcolor_        : Z;   (* Fl_Color *)
  bgcolor_        : Z;   (* Fl_Color *)
  defaultfgcolor_ : Z;   (* Fl_Color used by ESC[0m *)
  defaultbgcolor_ : Z;   (* Fl_Color used by ESC[0m *)
  fontface_       : Z;
  fontsize_       : Z;
  fontheight_     : Z;
  fontdescent_    : Z;
  charwidth_      : Z
}.

Definition with_attrib (v : Z) (s : t) : t :=
  mk v (charflags_ s) (fgcolor_ s) (bgcolor_ s) (defaultfgcolor_ s)
     (defaultbgcolor_ s) (fontface_ s) (fontsize_ s) (fontheight_ s)
     (fontdescent_ s) (charwidth_ s).

Definition with_charflags (v : Z) (s : t) : t :=
  mk (attrib_ s) v (fgcolor_ s) (bgcolor_ s) (defaultfgcolor_ s)
     (defaultbgcolor_ s) (fontface_ s) (fontsize_ s) (fontheight_ s)
     (fontdescent_ s) (charwidth_ s).

Definition with_fgcolor (v : Z) (s : t) : t :=
  mk (attrib_ s) (charflags_ s) v (bgcolor_ s) (defaultfgcolor_ s)
     (defaultbgcolor_ s) (fontface_ s) (fontsize_ s) (fontheight_ s)
     (fontdescent_ s) (charwidth_ s).

Definition with_bgcolor (v : Z) (s : t) : t :=
  mk (attrib_ s) (charflags_ s) (fgcolor_ s) v (defaultfgcolor_ s)
     (defaultbgcolor_ s) (fontface_ s) (fontsize_ s) (fontheight_ s)
     (fontdescent_ s) (charwidth_ s).

Definition with_defaultfgcolor (v : Z) (s : t) : t :=
  mk (attrib_ s) (charflags_ s) (fgcolor_ s) (bgcolor_ s) v
     (defaultbgcolor_ s) (fontface_ s) (fontsize_ s) (fontheight_ s)
     (fontdescent_ s) (charwidth_ s).

Definition with_defaultbgcolor (v : Z) (s : t) : t :=
  mk (attrib_ s) (charflags_ s) (fgcolor_ s) (bgcolor_ s)
     (defaultfgcolor_ s) v (fontface_ s) (fontsize_ s) (fontheight_ s)
     (fontdescent_ s) (charwidth_ s).

(** [void attrib(uchar val) { attrib_ = val; }] *)
Definition attrib (val : Z) (s : t) : t := with_attrib val s.

(** [void charflags(uchar val) { charflags_ = val; }] *)
Definition charflags (val : Z) (s : t) : t := with_charflags val s.

(** [void set_charflag(uchar val) { charflags_ |= val; }] *)
Definition set_charflag (val : Z) (s : t) : t :=
  with_charflags (to_uchar (Z.lor (charflags_ s) val)) s.

(** [void clr_charflag(uchar val) { charflags_ &= ~val; }] *)
Definition clr_charflag (val : Z) (s : t) : t :=
  with_charflags (to_uchar (Z.land (charflags_ s) (Z.lnot val))) s.

(** [void fgcolor(int r,int g,int b)] and [void bgcolor(int r,int g,int b)] *)
Definition rgb (r g b : Z) : Z :=
  to_color (Z.lor (Z.lor (Z.shiftl r 24) (Z.shiftl g 16)) (Z.shiftl b 8)).

Definition fgcolor_rgb (r g b : Z) (s : t) : t :=
  clr_charflag CharFlags.FG_XTERM (with_fgcolor (rgb r g b) s).

Definition bgcolor_rgb (r g b : Z) (s : t) : t :=
  clr_charflag CharFlags.BG_XTERM (with_bgcolor (rgb r g b) s).

(** [void fgcolor(Fl_Color val) { fgcolor_ = val; clr_charflag(FG_XTERM); }] *)
Definition fgcolor (val : Z) (s : t) : t :=
  clr_charflag CharFlags.FG_XTERM (with_fgcolor val s).

(** [void bgcolor(Fl_Color val) { bgcolor_ = val; clr_charflag(BG_XTERM); }] *)
Definition bgcolor (val : Z) (s : t) : t :=
  clr_charflag CharFlags.BG_XTERM (with_bgcolor val s).

(** [void fgcolor_xterm(Fl_Color val) { fgcolor_ = val; set_charflag(FG_XTERM); }] *)
Definition fgcolor_xterm (val : Z) (s : t) : t :=
  set_charflag CharFlags.FG_XTERM (with_fgcolor val s).

(** [void bgcolor_xterm(Fl_Color val) { bgcolor_ = val; set_charflag(BG_XTERM); }] *)
Definition bgcolor_xterm (val : Z) (s : t) : t :=
  set_charflag CharFlags.BG_XTERM (with_bgcolor val s).

Definition defaultfgcolor (val : Z) (s : t) : t :=
  with_defaultfgcolor val s.

Definition defaultbgcolor (val : Z) (s : t) : t :=
  with_defaultbgcolor val s.

(** [sgr_reset], the handler of ESC[0m:
<<
    attrib(Fl_Terminal::NORMAL);
    if (charflags() & FG_XTERM) fgcolor_xterm(defaultfgcolor_);
    else                        fgcolor(defaultfgcolor_);
    if (charflags() & BG_XTERM) bgcolor_xterm(defaultbgcolor_);
    else                        bgcolor(defaultbgcolor_);
>> *)
Definition sgr_reset (s : t) : t :=
  let s1 := attrib Attrib.NORMAL s in
  let s2 := if negb (Z.land (charflags_ s1) CharFlags.FG_XTERM =? 0)
            then fgcolor_xterm (defaultfgcolor_ s1) s1
            else fgcolor (defaultfgcolor_ s1) s1 in
  if negb (Z.land (charflags_ s2) CharFlags.BG_XTERM =? 0)
  then bgcolor_xterm (defaultbgcolor_ s2) s2
  else bgcolor (defaultbgcolor_ s2) s2.

(** [int onoff(bool flag, Attrib a)] *)
Definition onoff (flag : bool) (a : Z) (s : t) : Z :=
  if flag then Z.lor (attrib_ s) a else Z.land (attrib_ s) (Z.lnot a).

(** [void sgr_bold(bool val) { attrib_ = onoff(val, Fl_Terminal::BOLD); }]
    and likewise for the other attributes; [sgr_dbl_under] switches
    [UNDERLINE] and [sgr_blink] is not implemented. *)
Definition sgr_bold (val : bool) (s : t) : t :=
  with_attrib (to_uchar (onoff val Attrib.BOLD s)) s.
Definition sgr_dim (val : bool) (s : t) : t :=
  with_attrib (to_uchar (onoff val Attrib.DIM s)) s.
Definition sgr_italic (val : bool) (s : t) : t :=
  with_attrib (to_uchar (onoff val Attrib.ITALIC s)) s.
Definition sgr_underline (val : bool) (s : t) : t :=
  with_attrib (to_uchar (onoff val Attrib.UNDERLINE s)) s.
Definition sgr_dbl_under (val : bool) (s : t) : t :=
  with_attrib (to_uchar (onoff val Attrib.UNDERLINE s)) s.
Definition sgr_blink (val : bool) (s : t) : t := s.
Definition sgr_inverse (val : bool) (s : t) : t :=
  with_attrib (to_uchar (onoff val Attrib.INVERSE s)) s.
Definition sgr_strike (val : bool) (s : t) : t :=
  with_attrib (to_uchar (onoff val Attrib.STRIKEOUT s)) s.

End CharStyle.

(* ===================================================================== *)
(** ** class Cursor                                                        *)
(* ===================================================================== *)

Module Cursor.

Record t : Type := mk {
  col_     : Z;   (* cursor's current col (x) position on display *)
  row_     : Z;   (* cursor's current row (y) position on display *)
  h_       : Z;   (* cursor's height *)
  fgcolor_ : Z;
  bgcolor_ : Z
}.

(** The constructor [Cursor(void)]. *)
Definition ctor : t := mk 0 0 10 0xfffff000 0x00d00000.

(** [void col(int val) { col_ = val >= 0 ? val : 0; }] *)
Definition col (val : Z) (c : t) : t :=
  mk (if val >=? 0 then val else 0) (row_ c) (h_ c) (fgcolor_ c) (bgcolor_ c).

(** [void row(int val) { row_ = val >= 0 ? val : 0; }] *)
Definition row (val : Z) (c : t) : t :=
  mk (col_ c) (if val >=? 0 then val else 0) (h_ c) (fgcolor_ c) (bgcolor_ c).

Definition h (val : Z) (c : t) : t :=
  mk (col_ c) (row_ c) val (fgcolor_ c) (bgcolor_ c).
Definition fgcolor (val : Z) (c : t) : t :=
  mk (col_ c) (row_ c) (h_ c) val (bgcolor_ c).
Definition bgcolor (val : Z) (c : t) : t :=
  mk (col_ c) (row_ c) (h_ c) (fgcolor_ c) val.

(** [int left(void) { col_ = (col_>0) ? (col_-1) : 0; return col_; }] *)
Definition left (c : t) : t :=
  mk (if col_ c >? 0 then col_ c - 1 else 0) (row_ c) (h_ c) (fgcolor_ c) (bgcolor_ c).

(** [int right(void) { return ++col_; }]
    The increment is that of an [int]: at [INT_MAX] it wraps around to
    [INT_MIN]. *)
Definition right (c : t) : t :=
  mk (CInt.to_int (col_ c + 1)) (row_ c) (h_ c) (fgcolor_ c) (bgcolor_ c).

(** [int up(void) { row_ = (row_>0) ? (row_-1) : 0; return row_; }] *)
Definition up (c : t) : t :=
  mk (col_ c) (if row_ c >? 0 then row_ c - 1 else 0) (h_ c) (fgcolor_ c) (bgcolor_ c).

(** [int down(void) { return ++row_; }]
    The increment is that of an [int]: at [INT_MAX] it wraps around to
    [INT_MIN]. *)
Definition down (c : t) : t :=
  mk (col_ c) (CInt.to_int (row_ c + 1)) (h_ c) (fgcolor_ c) (bgcolor_ c).

(** [void home(void) { row_ = 0; col_ = 0; }] *)
Definition home (c : t) : t :=
  mk 0 0 (h_ c) (fgcolor_ c) (bgcolor_ c).

(** Modelled from the spec: the body of [Cursor::scroll(int nrows)] is in
    Fl_Terminal.cpp, the header only declares it.  The specification's
    data model has the cursor row "clamped >= 0, unbounded above": the
    row moves by [nrows] and is clamped at 0. *)
Definition scroll (nrows : Z) (c : t) : t :=
  mk (col_ c) (Z.max (row_ c + nrows) 0) (h_ c) (fgcolor_ c) (bgcolor_ c).

(** The operations of the class that write the cursor. *)
Inductive op : Type :=
| OpCol (val : Z)
| OpRow (val : Z)
| OpH (val : Z)
| OpFgcolor (val : Z)
| OpBgcolor (val : Z)
| OpLeft
| OpRight
| OpUp
| OpDown
| OpHome
| OpScroll (nrows : Z).

Definition run (c : t) (o : op) : t :=
  match o with
  | OpCol v => col v c
  | OpRow v => row v c
  | OpH v => h v c
  | OpFgcolor v => fgcolor v c
  | OpBgcolor v => bgcolor v c
  | OpLeft => left c
  | OpRight => right c
  | OpUp => up c
  | OpDown => down c
  | OpHome => home c
  | OpScroll n => scroll n c
  end.

(** A cursor after a sequence of calls on a freshly constructed object. *)
Definition run_all (ops : list op) : t := fold_left run ops ctor.

(** The clamp: neither coordinate is negative. *)
Definition nonneg (c : t) : Prop := 0 <= row_ c /\ 0 <= col_ c.

(** The call [o] on the cursor [c] increments no coordinate that is
    [INT_MAX] already: [right()] finds [col_ < INT_MAX] and [down()] finds
    [row_ < INT_MAX].  The other operations increment nothing. *)
Definition fits (c : t) (o : op) : bool :=
  match o with
  | OpRight => col_ c <? CInt.INT_MAX
  | OpDown => row_ c <? CInt.INT_MAX
  | _ => true
  end.

(** Every call of a sequence fits, on the cursor that it finds. *)
Fixpoint all_fit (ops : list op) (c : t) : bool :=
  match ops with
  | [] => true
  | o :: ops' => fits c o && all_fit ops' (run c o)
  end.

End Cursor.

(* ===================================================================== *)
(** ** UTF-8 lead bytes                                                    *)
(* ===================================================================== *)

(** Modelled from the spec: [fl_utf8len(char)] belongs to fl_utf8.h, which
    is not among the sources.  The specification derives the expected total
    length of a character from its UTF-8 lead byte; the table is the one in
    the comment of [PartialUtf8Buf::is_continuation]:
<<
      ASCII:  0xxxxxxx
    UTF8(2):  110xxxxx  10xxxxxx
    UTF8(3):  1110xxxx  10xxxxxx  10xxxxxx
    UTF8(4):  11110xxx  10xxxxxx  10xxxxxx  10xxxxxx
    UTF8(5):  111110xx  ...
    UTF8(6):  1111110x  ...
>>
    A byte that is no start byte has no length: the result is -1. *)
Definition fl_utf8len (c : Z) : Z :=
  if Z.land c 0x80 =? 0x00 then 1
  else if Z.land c 0xe0 =? 0xc0 then 2
  else if Z.land c 0xf0 =? 0xe0 then 3
  else if Z.land c 0xf8 =? 0xf0 then 4
  else if Z.land c 0xfc =? 0xf8 then 5
  else if Z.land c 0xfe =? 0xfc then 6
  else -1.

(* ===================================================================== *)
(** ** class Utf8Char                                                      *)
(* ===================================================================== *)

Module Utf8Char.
Import CInt.

Definition max_utf8_ : Z := 4.

Record t : Type := mk {
  text_      : list Z;   (* char text_[max_utf8_] *)
  len_       : Z;        (* uchar: 1 for ASCII, >1 for UTF-8 *)
  attrib_    : Z;        (* uchar *)
  charflags_ : Z;        (* uchar *)
  fgcolor_   : Z;        (* Fl_Color *)
  bgcolor_   : Z         (* Fl_Color *)
}.

(** [int length(void) const { return int(len_); }] *)
Definition length (u : t) : Z := len_ u.

(** [text_utf8()] with [length()]: the bytes of the character. *)
Definition text_utf8_bytes (u : t) : list Z :=
  firstn (Z.to_nat (length u)) (text_ u).

(** [bool is_char(char c) const { return *text_ == c; }] *)
Definition is_char (c : Z) (u : t) : bool := hd 0 (text_ u) =? c.

(** Modelled from the spec: the body of
    [Utf8Char::text_utf8(const char *text, int len, const CharStyle&)] is
    in Fl_Terminal.cpp.  The specification's cell holds [bytes[<=4]] with
    their [byteLength], and the character style is "read to stamp new
    cells": the first [len] bytes of [text] replace the head of the
    4-byte array, [len_] records their number, and attributes, colour
    flags and colours are taken from the style. *)
Definition text_utf8 (text : list Z) (len : Z) (style : CharStyle.t) (u : t) : t :=
  mk (firstn (Z.to_nat max_utf8_)
        (firstn (Z.to_nat len) text ++ skipn (Z.to_nat len) (text_ u)))
     (to_uchar len)
     (CharStyle.attrib_ style)
     (Z.land (CharStyle.charflags_ style) CharFlags.COLORMASK)
     (CharStyle.fgcolor_ style)
     (CharStyle.bgcolor_ style).

(** [void clear(const CharStyle& style)
      { text_utf8(" ", 1, style); charflags_ = 0; attrib_ = 0; }]
    The string literal is the space followed by its terminating NUL. *)
Definition clear (style : CharStyle.t) (u : t) : t :=
  let u1 := text_utf8 [32; 0] 1 style u in
  let u2 := mk (text_ u1) (len_ u1) (attrib_ u1) 0 (fgcolor_ u1) (bgcolor_ u1) in
  mk (text_ u2) (len_ u2) 0 (charflags_ u2) (fgcolor_ u2) (bgcolor_ u2).

(** A cell holding a space, for rings written out in full. *)
Definition blank : t := mk [32; 0; 0; 0] 1 0 0 0 0.

End Utf8Char.

(* ===================================================================== *)
(** ** class PartialUtf8Buf                                                *)
(* ===================================================================== *)

Module PartialUtf8Buf.

(** [sizeof(buf_)] for [char buf_[10]]. *)
Definition sizeof_buf : Z := 10.

Record t : Type := mk {
  buf_    : list Z;   (* char buf_[10] *)
  buflen_ : Z;        (* length of buffered UTF-8 encoded char *)
  clen_   : Z         (* final byte length of a UTF-8 char *)
}.

(** [void clear(void) { buflen_ = clen_ = 0; }] *)
Definition clear (b : t) : t := mk (buf_ b) 0 0.

(** The constructor clears; the array starts with unspecified contents,
    given here by [arr]. *)
Definition ctor (arr : list Z) : t := clear (mk arr 0 0).

(** [bool is_continuation(char c) { return ((c & 0xc0) == 0x80); }] *)
Definition is_continuation (c : Z) : bool := Z.land c 0xc0 =? 0x80.

Definition buf (b : t) : list Z := buf_ b.
Definition buflen (b : t) : Z := buflen_ b.

(** [while (len>0) { buf_[buflen_++] = *p++; len--; }]
    The loop runs [len] times; [p] must hold at least [len] bytes. *)
Fixpoint append_loop (b : t) (p : list Z) (len : nat) : t :=
  match len, p with
  | S n, c :: p' =>
      append_loop (mk (<[Z.to_nat (buflen_ b) := c]> (buf_ b)) (buflen_ b + 1) (clen_ b)) p' n
  | _, _ => b
  end.

Section WithUtf8len.
(** [fl_utf8len] is not among the sources: the class is embedded over
    any such function. *)
Variable utf8len : Z -> Z.

(** [bool append(const char* p, int len)]:
<<
  if (len <= 0) return true;
  if (buflen_ + len >= (int)sizeof(buf_))
    { clear(); return false; }
  if (!buflen_) clen_ = fl_utf8len( *p );
  while (len>0) { buf_[buflen_++] = *p++; len--; }
  return true;
>> *)
Definition append (p : list Z) (len : Z) (b : t) : t * bool :=
  if len <=? 0 then (b, true)
  else if buflen_ b + len >=? sizeof_buf then (clear b, false)
  else
    let b1 := if buflen_ b =? 0
              then mk (buf_ b) (buflen_ b) (utf8len (hd 0 p))
              else b in
    (append_loop b1 p (Z.to_nat len), true).
End WithUtf8len.

(** [bool is_complete(void) const { return (buflen_ && (buflen_ == clen_)); }] *)
Definition is_complete (b : t) : bool :=
  negb (buflen_ b =? 0) && (buflen_ b =? clen_ b).

(** The bytes buffered so far: [buf()] read up to [buflen()]. *)
Definition bytes (b : t) : list Z := firstn (Z.to_nat (buflen_ b)) (buf_ b).

(** The array has its ten cells and the length is inside it. *)
Definition wf (b : t) : Prop :=
  Z.of_nat (Datatypes.length (buf_ b)) = sizeof_buf /\ 0 <= buflen_ b < sizeof_buf.

End PartialUtf8Buf.

(* ===================================================================== *)
(** ** class RingBuffer                                                    *)
(* ===================================================================== *)

Module RingBuffer.
Import CInt.

Record t : Type := mk {
  ring_chars_ : list Utf8Char.t;   (* the ring UTF-8 char buffer *)
  ring_rows_  : Z;                 (* #rows in ring total *)
  ring_cols_  : Z;                 (* #columns in ring/hist/disp *)
  nchars_     : Z;                 (* #chars in ring (ring_rows*ring_cols) *)
  hist_rows_  : Z;                 (* #rows in history *)
  hist_use_   : Z;                 (* #rows in use by history *)
  disp_rows_  : Z;                 (* #rows in display *)
  offset_     : Z                  (* index offset (used for 'scrolling') *)
}.

(** The inline accessors of the header. *)
Definition ring_rows (rb : t) : Z := ring_rows_ rb.
Definition ring_cols (rb : t) : Z := ring_cols_ rb.
Definition ring_srow (rb : t) : Z := 0.
Definition ring_erow (rb : t) : Z := ring_rows_ rb - 1.
Definition hist_rows (rb : t) : Z := hist_rows_ rb.
Definition hist_cols (rb : t) : Z := ring_cols_ rb.
(** [return((offset_ + 0) % ring_rows_);] *)
Definition hist_srow (rb : t) : Z := c_rem (offset_ rb + 0) (ring_rows_ rb).
(** [return((offset_ + hist_rows_ - 1) % ring_rows_);] *)
Definition hist_erow (rb : t) : Z := c_rem (offset_ rb + hist_rows_ rb - 1) (ring_rows_ rb).
Definition disp_rows (rb : t) : Z := disp_rows_ rb.
Definition disp_cols (rb : t) : Z := ring_cols_ rb.
(** [return((offset_ + hist_rows_) % ring_rows_);] *)
Definition disp_srow (rb : t) : Z := c_rem (offset_ rb + hist_rows_ rb) (ring_rows_ rb).
(** [return((offset_ + hist_rows_ + disp_rows_ - 1) % ring_rows_);] *)
Definition disp_erow (rb : t) : Z :=
  c_rem (offset_ rb + hist_rows_ rb + disp_rows_ rb - 1) (ring_rows_ rb).
Definition offset (rb : t) : Z := offset_ rb.
Definition hist_use (rb : t) : Z := hist_use_ rb.
Definition ring_chars (rb : t) : list Utf8Char.t := ring_chars_ rb.

(** The inline setters [hist_rows(int)], [disp_rows(int)], [hist_use(int)]. *)
Definition hist_rows_set (val : Z) (rb : t) : t :=
  mk (ring_chars_ rb) (ring_rows_ rb) (ring_cols_ rb) (nchars_ rb) val
     (hist_use_ rb) (disp_rows_ rb) (offset_ rb).
Definition disp_rows_set (val : Z) (rb : t) : t :=
  mk (ring_chars_ rb) (ring_rows_ rb) (ring_cols_ rb) (nchars_ rb) (hist_rows_ rb)
     (hist_use_ rb) val (offset_ rb).
Definition hist_use_set (val : Z) (rb : t) : t :=
  mk (ring_chars_ rb) (ring_rows_ rb) (ring_cols_ rb) (nchars_ rb) (hist_rows_ rb)
     val (disp_rows_ rb) (offset_ rb).

Definition with_chars (cs : list Utf8Char.t) (rb : t) : t :=
  mk cs (ring_rows_ rb) (ring_cols_ rb) (nchars_ rb) (hist_rows_ rb)
     (hist_use_ rb) (disp_rows_ rb) (offset_ rb).
Definition with_offset (val : Z) (rb : t) : t :=
  mk (ring_chars_ rb) (ring_rows_ rb) (ring_cols_ rb) (nchars_ rb) (hist_rows_ rb)
     (hist_use_ rb) (disp_rows_ rb) val.

(** Modelled from the spec: the body of [RingBuffer::create(drows, dcols,
    hrows)] is in Fl_Terminal.cpp.  "create(displayRows, displayCols,
    historyRows) allocates ringRows = historyRows+displayRows rows x
    displayCols columns, offset=0, historyUsed=0."  The cells are built by
    the default constructor of Utf8Char, which is not among the sources;
    its result is the argument [u0]. *)
Definition create (drows dcols hrows : Z) (u0 : Utf8Char.t) : t :=
  mk (replicate (Z.to_nat ((hrows + drows) * dcols)) u0)
     (hrows + drows) dcols ((hrows + drows) * dcols) hrows 0 drows 0.

(** The cells [start .. start+count-1] of the ring array are cleared. *)
Definition clear_cells (style : CharStyle.t) (start count : nat)
    (cells : list Utf8Char.t) : list Utf8Char.t :=
  firstn start cells
  ++ map (Utf8Char.clear style) (firstn count (skipn start cells))
  ++ skipn (start + count) cells.

(** The cells of display row [drow], found through the offset as
    [disp_srow() + drow] wrapped into the ring, are cleared. *)
Definition clear_disp_row (drow : Z) (style : CharStyle.t) (rb : t) : t :=
  let grow := c_rem (disp_srow rb + drow) (ring_rows_ rb) in
  with_chars (clear_cells style (Z.to_nat (grow * ring_cols_ rb))
                (Z.to_nat (ring_cols_ rb)) (ring_chars_ rb)) rb.

Fixpoint clear_disp_rows_from (drow : Z) (n : nat) (style : CharStyle.t) (rb : t) : t :=
  match n with
  | O => rb
  | S n' => clear_disp_rows_from (drow + 1) n' style (clear_disp_row drow style rb)
  end.

(** Modelled from the spec: the body of [RingBuffer::clear_disp_rows(sdrow,
    edrow, style)] is in Fl_Terminal.cpp.  "clearDisplayRows(startRow,
    endRow, style)" blanks the cell rows from the start row to the end row
    of the display. *)
Definition clear_disp_rows (sdrow edrow : Z) (style : CharStyle.t) (rb : t) : t :=
  clear_disp_rows_from sdrow (Z.to_nat (edrow - sdrow + 1)) style rb.

(** Modelled from the spec: the body of [RingBuffer::scroll(rows, style)]
    is in Fl_Terminal.cpp.  "scroll(n, style): for n>0 (scroll up, i.e.,
    content moves into history) advance offset by n (mod ringRows), increase
    historyUsed by n capped at historyRows, and blank-fill the n newly
    exposed rows at the bottom of the display region; n<0 performs the
    mirror operation scrolling down, decreasing effective offset, never
    going past historyUsed rows of available history (clamped; excess is a
    no-op, not an error)."  The remainder is the [%] of the accessors. *)
Definition scroll (rows : Z) (style : CharStyle.t) (rb : t) : t :=
  if rows >? 0 then
    let rb1 := with_offset (c_rem (offset_ rb + rows) (ring_rows_ rb))
                 (hist_use_set (Z.min (hist_rows_ rb) (hist_use_ rb + rows)) rb) in
    let n := Z.min rows (disp_rows_ rb1) in
    clear_disp_rows (disp_rows_ rb1 - n) (disp_rows_ rb1 - 1) style rb1
  else if rows <? 0 then
    let m := Z.min (- rows) (hist_use_ rb) in
    with_offset (c_rem (offset_ rb - m + ring_rows_ rb) (ring_rows_ rb))
      (hist_use_set (hist_use_ rb - m) rb)
  else rb.

(** The valid ring states: a ring is created with at least one display
    row and one column, and is scrolled from then on. *)
Inductive valid : t -> Prop :=
| valid_create (drows dcols hrows : Z) (u0 : Utf8Char.t) :
    1 <= drows -> 1 <= dcols -> 0 <= hrows ->
    valid (create drows dcols hrows u0)
| valid_scroll (rows : Z) (style : CharStyle.t) (rb : t) :
    valid rb -> valid (scroll rows style rb).

(** The fields of a ring other than its cells. *)
Definition geometry (rb : t) : Z * Z * Z * Z * Z * Z * Z :=
  (ring_rows_ rb, ring_cols_ rb, nchars_ rb, hist_rows_ rb, hist_use_ rb,
   disp_rows_ rb, offset_ rb).

(** What holds of every valid ring. *)
Definition inv (rb : t) : Prop :=
  hist_rows rb + disp_rows rb = ring_rows rb /\
  0 <= hist_use rb <= hist_rows rb /\
  0 <= offset rb < ring_rows rb /\
  1 <= disp_rows rb /\ 0 <= hist_rows rb /\ 1 <= ring_cols rb /\
  nchars_ rb = ring_rows rb * ring_cols rb /\
  Z.of_nat (length (ring_chars rb)) = nchars_ rb.

End RingBuffer.

(* ===================================================================== *)
(** ** class Selection                                                     *)
(* ===================================================================== *)

Module Selection.
Import CInt.

Record t : Type := mk {
  srow_ : Z; scol_ : Z; erow_ : Z; ecol_ : Z;  (* start/end; start *might* be > end *)
  push_row_ : Z; push_col_ : Z;                (* global row/col for last FL_PUSH *)
  push_char_right_ : bool;
  selectionbgcolor_ : Z;
  selectionfgcolor_ : Z;
  state_ : Z;                                  (* 0=none, 1=started, 2=extended, 3=done *)
  is_selection_ : bool                         (* false: no selection *)
}.

Definition srow (s : t) : Z := srow_ s.
Definition erow (s : t) : Z := erow_ s.
Definition state (s : t) : Z := state_ s.

(** [void push_clear() { push_row_ = push_col_ = -1; push_char_right_ = false; }] *)
Definition push_clear (s : t) : t :=
  mk (srow_ s) (scol_ s) (erow_ s) (ecol_ s) (-1) (-1) false
     (selectionbgcolor_ s) (selectionfgcolor_ s) (state_ s) (is_selection_ s).



(** Modelled from the spec: the body of [Selection::start(row, col,
    char_right)] is in Fl_Terminal.cpp.  "start(row,col,sideFlag) sets both
    start and end to the same point and state=started."  From then on there
    is a selection. *)
Definition start (row col : Z) (char_right : bool) (s : t) : t :=
  mk row col row col (push_row_ s) (push_col_ s) (push_char_right_ s)
     (selectionbgcolor_ s) (selectionfgcolor_ s) 1 true.

(** [void start_push() { start(push_row_, push_col_, push_char_right_); }] *)
Definition start_push (s : t) : t :=
  start (push_row_ s) (push_col_ s) (push_char_right_ s) s.

(** Modelled from the spec: the body of [Selection::extend(row, col,
    char_right)] is in Fl_Terminal.cpp.  "extend(row,col,sideFlag) updates
    end and sets state=extended; must allow start>end lexicographically
    (user dragged backward)." *)
Definition extend (row col : Z) (char_right : bool) (s : t) : t :=
  mk (srow_ s) (scol_ s) row col (push_row_ s) (push_col_ s) (push_char_right_ s)
     (selectionbgcolor_ s) (selectionfgcolor_ s) 2 true.

(** Modelled from the spec: the body of [Selection::end()] is in
    Fl_Terminal.cpp.  "end() sets state=done but preserves coordinates for
    copy." *)
Definition end_ (s : t) : t :=
  mk (srow_ s) (scol_ s) (erow_ s) (ecol_ s) (push_row_ s) (push_col_ s)
     (push_char_right_ s) (selectionbgcolor_ s) (selectionfgcolor_ s) 3
     (is_selection_ s).

(** The result of [get_selection]: the returned [bool] and the four
    reference arguments. *)
Record range : Type := mk_range {
  r_ok : bool; r_srow : Z; r_scol : Z; r_erow : Z; r_ecol : Z
}.

(** Modelled from the spec: the body of [Selection::get_selection(srow,
    scol, erow, ecol)] is in Fl_Terminal.cpp; the header declares it with
    the comment "guarantees return (start < end)".  "get_selection is the
    only place that normalizes into (earlier,later) order for consumers":
    when the start is after the end, by rows and then by columns, the two
    points are exchanged. *)
Definition get_selection (s : t) : range :=
  if (srow_ s >? erow_ s) || ((srow_ s =? erow_ s) && (scol_ s >? ecol_ s))
  then mk_range (is_selection_ s) (erow_ s) (ecol_ s) (srow_ s) (scol_ s)
  else mk_range (is_selection_ s) (srow_ s) (scol_ s) (erow_ s) (ecol_ s).

(** A selection object before any mouse event: no selection, no push. *)
Definition none (bg fg : Z) : t :=
  push_clear (mk 0 0 0 0 0 0 false bg fg 0 false).

(** The lexicographic order on (row, col). *)
Definition lex_le (r1 c1 r2 c2 : Z) : Prop :=
  r1 < r2 \/ (r1 = r2 /\ c1 <= c2).

End Selection.

(* ===================================================================== *)
(** ** class EscapeSeq                                                     *)
(* ===================================================================== *)

Module EscapeSeq.

(** The constants of the header. *)
Definition maxbuff   : Z := 80.   (* character buffer *)
Definition maxvals   : Z := 20.   (* integer value buffer *)
Definition success   : Z := 0.    (* operation succeeded *)
Definition fail      : Z := -1.   (* operation failed *)
Definition completed : Z := 1.    (* multi-step operation completed successfully *)

Definition ESC : Z := 0x1b.
Definition CSI : Z := 0x5b.       (* '[' *)

(** The state of the parser.  The pointers into [buff_] are read as what
    they delimit: [buff_] holds the bytes stored so far (from the start of
    the array to [buffp_]), [val_] the integer being parsed (the digits
    from [valbuffp_] on, if any), [vals_] the values parsed so far
    ([vals_[0 .. vali_-1]]). *)
Record t : Type := mk {
  esc_mode_ : Z;          (* 0: idle, ESC: ESC seen, '[': collecting a CSI
                             sequence, else the byte that completed one *)
  csi_      : bool;       (* this is an ESC[.. sequence *)
  buff_     : list Z;     (* escape sequence being parsed *)
  val_      : option Z;   (* integer being parsed *)
  vals_     : list Z;     (* values of ESC[#;#;#.. *)
  save_row_ : Z;
  save_col_ : Z           (* used by ESC[s/u for save/restore *)
}.

(** Modelled from the spec: the bodies of the member functions of EscapeSeq
    are in Fl_Terminal.cpp; the header declares them.  The parser state is
    "reset to idle after each completed or failed sequence"; the saved
    cursor position belongs to the save/restore handlers and stays. *)
Definition reset (e : t) : t :=
  mk 0 false [] None [] (save_row_ e) (save_col_ e).

(** The constructor: an idle parser. *)
Definition ctor : t := mk 0 false [] None [] (-1) (-1).

Definition esc_mode (e : t) : Z := esc_mode_ e.
Definition esc_mode_set (val : Z) (e : t) : t :=
  mk val (csi_ e) (buff_ e) (val_ e) (vals_ e) (save_row_ e) (save_col_ e).
Definition total_vals (e : t) : Z := Z.of_nat (length (vals_ e)).
Definition val (i : Z) (e : t) : Z := nth (Z.to_nat i) (vals_ e) 0.
Definition parse_in_progress (e : t) : bool := negb (esc_mode_ e =? 0).
Definition is_csi (e : t) : bool := csi_ e.

(** "save_cursor/restore_cursor are simple field accessors." *)
Definition save_cursor (row col : Z) (e : t) : t :=
  mk (esc_mode_ e) (csi_ e) (buff_ e) (val_ e) (vals_ e) row col.
Definition restore_cursor (e : t) : Z * Z := (save_row_ e, save_col_ e).

(** Modelled from the spec: [append_buff(c)] stores one raw byte; the raw
    byte buffer is bounded by [maxbuff], and a byte that does not fit is an
    overflow. *)
Definition append_buff (c : Z) (e : t) : option t :=
  if Z.of_nat (length (buff_ e)) >=? maxbuff then None
  else Some (mk (esc_mode_ e) (csi_ e) (buff_ e ++ [c]) (val_ e) (vals_ e)
                (save_row_ e) (save_col_ e)).

(** Modelled from the spec: [append_val()] finalizes the current
    parameter, an absent one counting as 0; the parameter list is "bounded
    to a maximum parameter count - exceeding it is a parse failure". *)
Definition append_val (e : t) : option t :=
  if Z.of_nat (length (vals_ e)) >=? maxvals then None
  else Some (mk (esc_mode_ e) (csi_ e) (buff_ e) None
                (vals_ e ++ [default 0 (val_ e)])
                (save_row_ e) (save_col_ e)).

Definition is_digit (c : Z) : bool := (0x30 <=? c) && (c <=? 0x39).
Definition is_final (c : Z) : bool := (0x40 <=? c) && (c <=? 0x7e).

(** A digit joins the integer being parsed. *)
Definition push_digit (c : Z) (e : t) : t :=
  mk (esc_mode_ e) (csi_ e) (buff_ e)
     (Some (10 * default 0 (val_ e) + (c - 0x30))) (vals_ e)
     (save_row_ e) (save_col_ e).

Definition csi_set (b : bool) (e : t) : t :=
  mk (esc_mode_ e) b (buff_ e) (val_ e) (vals_ e) (save_row_ e) (save_col_ e).

(** A failed sequence: "forces a fail state and resets to idle". *)
Definition pfail (e : t) : t * Z := (reset e, fail).

(** The byte is stored, or the sequence fails on a full buffer. *)
Definition stored (c : Z) (code : Z) (e : t) : t * Z :=
  match append_buff c e with
  | Some e' => (e', code)
  | None => pfail e
  end.

(** Modelled from the spec: [int parse(char c)], one byte in, one outcome
    out.  "idle -> (ESC byte) -> escSeen -> (either a CSI introducer '[' ->
    csiCollecting, or a single-char final like 'c' -> complete-immediately).
    In csiCollecting, digits accumulate into the current integer parameter;
    ';' finalizes current parameter and starts the next (bounded to a
    maximum parameter count); any byte in the 0x40-0x7E final byte range
    that is not a digit or ';' terminates the sequence as complete and
    identifies the command verb.  A private-mode prefix ('?') is tracked
    but not specially restricted.  Buffer overflow forces a fail state and
    resets to idle."  The single-character finals after ESC are the bytes
    from '0' to '~' other than '[', which holds ESC 7, ESC 8 and ESC c of
    the command list.  A byte that no rule accepts is a malformed sequence:
    the parser resets and fails.  A byte other than ESC offered to the idle
    parser is no escape sequence: the parser stays idle and the outcome is
    [fail]; the terminal only calls the parser on ESC or while a sequence
    is in progress. *)
Definition parse (c : Z) (e : t) : t * Z :=
  if esc_mode_ e =? 0 then
    if c =? ESC then stored c success (esc_mode_set ESC (reset e))
    else pfail e
  else if esc_mode_ e =? ESC then
    if c =? CSI then stored c success (csi_set true (esc_mode_set CSI e))
    else if (0x30 <=? c) && (c <=? 0x7e)
      then stored c completed (csi_set false (esc_mode_set c e))
    else pfail e
  else if esc_mode_ e =? CSI then
    if is_digit c then stored c success (push_digit c e)
    else if c =? 0x3b then                       (* ';' *)
      match append_val e with
      | Some e' => stored c success e'
      | None => pfail e
      end
    else if c =? 0x3f then stored c success e    (* '?' *)
    else if is_final c then
      match (match val_ e with Some _ => append_val e | None => Some e end) with
      | Some e' => stored c completed (esc_mode_set c e')
      | None => pfail e
      end
    else pfail e
  else pfail e.

(** The private-mode prefix is tracked through the raw bytes. *)
Definition is_private (e : t) : bool := existsb (Z.eqb 0x3f) (buff_ e).

(** The parser fed with a byte sequence; the outcome is that of the last
    byte ([success] for no byte). *)
Definition parse_all (bs : list Z) (e : t) : t * Z :=
  fold_left (fun st c => parse c (fst st)) bs (e, success).

(** The bounds of the buffers. *)
Definition bounded (e : t) : Prop :=
  Z.of_nat (length (buff_ e)) <= maxbuff /\ Z.of_nat (length (vals_ e)) <= maxvals.

(** The idle parser: nothing of a sequence is left. *)
Definition idle (e : t) : Prop :=
  esc_mode_ e = 0 /\ csi_ e = false /\ buff_ e = [] /\ val_ e = None /\ vals_ e = [].

(** The two shapes of a step of the parser: it fails and resets, or it
    stores the byte in a state that differs from the old one in what the
    byte means. *)
Inductive parse_shape (c : Z) (e : t) : t * Z -> Prop :=
| shape_fail : parse_shape c e (reset e, fail)
| shape_stored (code : Z) (e' : t) :
    code <> fail -> reset e' = reset e ->
    (bounded e -> bounded e') ->
    buff_ e' = (if esc_mode_ e =? 0 then [] else buff_ e) ->
    parse_shape c e (stored c code e').

End EscapeSeq.

(* ===================================================================== *)
(** ** class Fl_Terminal: the output path                                  *)
(* ===================================================================== *)

Module Terminal.

(** The members of Fl_Terminal that the output path reads and writes. *)
Record t : Type := mk {
  current_style_   : CharStyle.t;       (* current font, attrib, color.. *)
  oflags_          : Z;                 (* output translation flags *)
  ring_            : RingBuffer.t;      (* history/display ring buffer *)
  cursor_          : Cursor.t;          (* terminal cursor *)
  select_          : Selection.t;       (* mouse selection *)
  escseq           : EscapeSeq.t;       (* escape sequence parsing *)
  show_unknown_    : bool;
  ansi_            : bool;              (* if true, parse ansi codes *)
  redraw_modified_ : bool;
  pub_             : PartialUtf8Buf.t   (* partial UTF-8 buffer *)
}.

Definition with_escseq (e : EscapeSeq.t) (tty : t) : t :=
  mk (current_style_ tty) (oflags_ tty) (ring_ tty) (cursor_ tty) (select_ tty)
     e (show_unknown_ tty) (ansi_ tty) (redraw_modified_ tty) (pub_ tty).

Definition with_pub (p : PartialUtf8Buf.t) (tty : t) : t :=
  mk (current_style_ tty) (oflags_ tty) (ring_ tty) (cursor_ tty) (select_ tty)
     (escseq tty) (show_unknown_ tty) (ansi_ tty) (redraw_modified_ tty) p.

Section Output.

(** The handlers of the output path are declared by the header and defined
    in Fl_Terminal.cpp: [print_char(text, len)] writes one character at the
    cursor, [handle_ctrl(c)] acts on a control character, [handle_escseq]
    dispatches a completed escape sequence, [handle_unknown_char()] shows
    or drops an invalid byte, [is_ctrl(c)] recognises control characters.
    The output path is embedded over any such handlers. *)
Variable print_char : list Z -> t -> t.
Variable handle_ctrl : Z -> t -> t.
Variable handle_escseq : t -> t.
Variable handle_unknown_char : t -> t.
Variable is_ctrl : Z -> bool.

(** Modelled from the spec: a character, given by its bytes [text], goes
    to "EscapeSequenceParser/printable-character dispatch".  With ANSI
    processing on, ESC and whatever arrives while a sequence is in progress
    go to the parser: a completed sequence is dispatched and the parser
    reset to idle, a failed one is consumed silently.  Any other character
    is a control character or is printed. *)
Definition dispatch (text : list Z) (tty : t) : t :=
  let c := hd 0 text in
  if ansi_ tty && (EscapeSeq.parse_in_progress (escseq tty) || (c =? EscapeSeq.ESC)) then
    let (e', r) := EscapeSeq.parse c (escseq tty) in
    if r =? EscapeSeq.completed then
      let tty1 := handle_escseq (with_escseq e' tty) in
      with_escseq (EscapeSeq.reset (escseq tty1)) tty1
    else with_escseq e' tty
  else if is_ctrl c then handle_ctrl c tty
  else print_char text tty.

(** A byte met while no character is in progress: a one-byte character is
    dispatched, the lead byte of a longer one opens the partial buffer, a
    byte that starts no character is an encoding error. *)
Definition start_char (c : Z) (tty : t) : t :=
  let clen := fl_utf8len c in
  if clen =? 1 then dispatch [c] tty
  else if clen <? 1 then handle_unknown_char tty
  else
    let (p, ok) := PartialUtf8Buf.append fl_utf8len [c] 1 (pub_ tty) in
    if ok then with_pub p tty else handle_unknown_char (with_pub p tty).

(** Modelled from the spec: the terminal "feeds bytes through
    PartialUtf8Assembler and EscapeSequenceParser".  While a multi-byte
    character is in progress its continuation bytes are appended to the
    partial buffer; the completed character goes to the dispatch and the
    buffer is "reset whenever a complete character is consumed or a
    malformed sequence is detected". *)
Definition feed (tty : t) (c : Z) : t :=
  if 0 <? PartialUtf8Buf.buflen (pub_ tty) then
    if PartialUtf8Buf.is_continuation c then
      let (p, ok) := PartialUtf8Buf.append fl_utf8len [c] 1 (pub_ tty) in
      if negb ok then handle_unknown_char (with_pub p tty)
      else if PartialUtf8Buf.is_complete p then
        let tty1 := dispatch (PartialUtf8Buf.bytes p) (with_pub p tty) in
        with_pub (PartialUtf8Buf.clear (pub_ tty1)) tty1
      else with_pub p tty
    else
      start_char c
        (handle_unknown_char (with_pub (PartialUtf8Buf.clear (pub_ tty)) tty))
  else start_char c tty.

(** Modelled from the spec: the body of [Fl_Terminal::append(s, len)] is in
    Fl_Terminal.cpp.  "append(bytes) - feeds raw bytes (may be partial
    UTF-8 / partial escape sequences) through PartialUtf8Assembler then
    EscapeSequenceParser/printable-character dispatch."  [s] holds the
    bytes of the call. *)
Definition append (s : list Z) (tty : t) : t := fold_left feed s tty.

End Output.

Definition with_ring (rb : RingBuffer.t) (tty : t) : t :=
  mk (current_style_ tty) (oflags_ tty) rb (cursor_ tty) (select_ tty)
     (escseq tty) (show_unknown_ tty) (ansi_ tty) (redraw_modified_ tty) (pub_ tty).

Definition with_cursor (c : Cursor.t) (tty : t) : t :=
  mk (current_style_ tty) (oflags_ tty) (ring_ tty) c (select_ tty)
     (escseq tty) (show_unknown_ tty) (ansi_ tty) (redraw_modified_ tty) (pub_ tty).

(** The index in the ring array of the cell at display row [drow] and
    column [dcol]: the row is found through the offset. *)
Definition disp_index (drow dcol : Z) (rb : RingBuffer.t) : nat :=
  Z.to_nat (CInt.c_rem (RingBuffer.disp_srow rb + drow) (RingBuffer.ring_rows rb)
            * RingBuffer.ring_cols rb + dcol).

(** [utf8_char_at_disp(drow, dcol)]: the cell of the display. *)
Definition utf8_char_at_disp (drow dcol : Z) (tty : t) : option Utf8Char.t :=
  RingBuffer.ring_chars (ring_ tty) !! disp_index drow dcol (ring_ tty).

(** Modelled from the spec: the body of [plot_char(text, len, drow, dcol)]
    is in Fl_Terminal.cpp; it puts a single character at a position of the
    display, stamped with the current style. *)
Definition plot_char (text : list Z) (len drow dcol : Z) (tty : t) : t :=
  let i := disp_index drow dcol (ring_ tty) in
  match RingBuffer.ring_chars (ring_ tty) !! i with
  | Some u =>
      with_ring (RingBuffer.with_chars
                   (<[i := Utf8Char.text_utf8 text len (current_style_ tty) u]>
                      (RingBuffer.ring_chars (ring_ tty)))
                   (ring_ tty)) tty
  | None => tty
  end.

(** Modelled from the spec: the body of [print_char(text, len)] is in
    Fl_Terminal.cpp.  "printCharacter(codepointBytes) - writes one decoded
    character at the cursor using current CharacterStyle, advances the
    cursor column, and triggers line-wrap (move to column 0, scroll/advance
    row) when the column exceeds displayColumns."  On the last row of the
    display the ring scrolls by one row, else the cursor moves down. *)
Definition print_char (text : list Z) (tty : t) : t :=
  let tty1 := plot_char text (Z.of_nat (length text))
                (Cursor.row_ (cursor_ tty)) (Cursor.col_ (cursor_ tty)) tty in
  let c1 := Cursor.right (cursor_ tty1) in
  if Cursor.col_ c1 >=? RingBuffer.disp_cols (ring_ tty1) then
    if Cursor.row_ c1 + 1 >=? RingBuffer.disp_rows (ring_ tty1) then
      with_cursor (Cursor.col 0 c1)
        (with_ring (RingBuffer.scroll 1 (current_style_ tty1) (ring_ tty1)) tty1)
    else with_cursor (Cursor.down (Cursor.col 0 c1)) tty1
  else with_cursor c1 tty1.

(** The output path over [print_char], for streams of text: control
    characters and escape sequences, whose handlers are not among the
    sources, are left without effect, and an invalid byte is dropped. *)
Definition append_text (s : list Z) (tty : t) : t :=
  append print_char (fun _ st => st) (fun st => st) (fun st => st)
         (fun c => c <? 0x20) s tty.

(** A terminal of the given style and geometry on which nothing was
    written yet: blank cells, the cursor at home, an idle escape parser and
    an empty partial buffer. *)
Definition fresh (style : CharStyle.t) (drows dcols hrows : Z) : t :=
  mk style 0 (RingBuffer.create drows dcols hrows Utf8Char.blank) Cursor.ctor
     (Selection.none 0 0) EscapeSeq.ctor false true false
     (PartialUtf8Buf.ctor (replicate 10 0)).

(** The bytes of the character shown at a position of the display. *)
Definition text_at_disp (drow dcol : Z) (tty : t) : option (list Z) :=
  Utf8Char.text_utf8_bytes <$> utf8_char_at_disp drow dcol tty.

(** A terminal of two rows of four columns with one row of history. *)
Definition small : t :=
  fresh (CharStyle.mk 0 0 0xffffff00 0 0xffffff00 0 0 14 16 4 8) 2 4 1.

End Terminal.

(* ===================================================================== *)
(** ** Enumerations: colours                                               *)
(* ===================================================================== *)

Module Color.
Import CInt.

(** An [Fl_Color] is [0xrrggbbii]: three colour components and an index
    into the colour map.  The standard colours of the colour map: *)
Definition FL_FOREGROUND_COLOR  : Z := 0.
Definition FL_BACKGROUND2_COLOR : Z := 7.
Definition FL_INACTIVE_COLOR    : Z := 8.
Definition FL_SELECTION_COLOR   : Z := 15.
Definition FL_GRAY0   : Z := 32.
Definition FL_DARK3   : Z := 39.
Definition FL_DARK2   : Z := 45.
Definition FL_DARK1   : Z := 47.
Definition FL_BACKGROUND_COLOR : Z := 49.
Definition FL_LIGHT1  : Z := 50.
Definition FL_LIGHT2  : Z := 52.
Definition FL_LIGHT3  : Z := 54.
Definition FL_BLACK   : Z := 56.
Definition FL_RED     : Z := 88.
Definition FL_GREEN   : Z := 63.
Definition FL_YELLOW  : Z := 95.
Definition FL_BLUE    : Z := 216.
Definition FL_MAGENTA : Z := 248.
Definition FL_CYAN    : Z := 223.
Definition FL_WHITE   : Z := 255.

Definition FL_FREE_COLOR     : Z := 16.
Definition FL_NUM_FREE_COLOR : Z := 16.
Definition FL_GRAY_RAMP      : Z := 32.
Definition FL_NUM_GRAY       : Z := 24.
Definition FL_COLOR_CUBE     : Z := 56.
Definition FL_NUM_RED        : Z := 5.
Definition FL_NUM_GREEN      : Z := 8.
Definition FL_NUM_BLUE       : Z := 5.

(** [inline Fl_Color fl_rgb_color(uchar r, uchar g, uchar b) {
       if (!r && !g && !b) return FL_BLACK;
       else return (Fl_Color)(((((r << 8) | g) << 8) | b) << 8); }] *)
Definition fl_rgb_color (r g b : Z) : Z :=
  if (r =? 0) && (g =? 0) && (b =? 0) then FL_BLACK
  else to_color (Z.shiftl (Z.lor (Z.shiftl (Z.lor (Z.shiftl r 8) g) 8) b) 8).

(** [inline Fl_Color fl_rgb_color_gs(uchar g) {
       if (!g) return FL_BLACK;
       else return (Fl_Color)(((((g << 8) | g) << 8) | g) << 8); }] *)
Definition fl_rgb_color_gs (g : Z) : Z :=
  if g =? 0 then FL_BLACK
  else to_color (Z.shiftl (Z.lor (Z.shiftl (Z.lor (Z.shiftl g 8) g) 8) g) 8).

(** [inline Fl_Color fl_gray_ramp(int i) {return (Fl_Color)(i+FL_GRAY_RAMP);}] *)
Definition fl_gray_ramp (i : Z) : Z := to_color (i + FL_GRAY_RAMP).

(** [inline Fl_Color fl_color_cube(int r, int g, int b) {
       return (Fl_Color)((b*FL_NUM_RED + r) * FL_NUM_GREEN + g + FL_COLOR_CUBE);}] *)
Definition fl_color_cube (r g b : Z) : Z :=
  to_color ((b * FL_NUM_RED + r) * FL_NUM_GREEN + g + FL_COLOR_CUBE).

(** The components of a colour given by its rgb value. *)
Definition red (c : Z) : Z := Z.land (Z.shiftr c 24) 255.
Definition green (c : Z) : Z := Z.land (Z.shiftr c 16) 255.
Definition blue (c : Z) : Z := Z.land (Z.shiftr c 8) 255.
Definition index (c : Z) : Z := Z.land c 255.

End Color.

(* ===================================================================== *)
(** ** Enumerations: box types                                             *)
(* ===================================================================== *)

Module Boxtype.
Import CInt.

(** The first values of [enum Fl_Boxtype]; from [FL_UP_BOX] on the box
    types come in groups of four: up box, down box, up frame, down frame. *)
Definition FL_NO_BOX          : Z := 0.
Definition FL_FLAT_BOX        : Z := 1.
Definition FL_UP_BOX          : Z := 2.
Definition FL_DOWN_BOX        : Z := 3.
Definition FL_UP_FRAME        : Z := 4.
Definition FL_DOWN_FRAME      : Z := 5.
Definition FL_THIN_UP_BOX     : Z := 6.
Definition FL_THIN_DOWN_BOX   : Z := 7.
Definition FL_THIN_UP_FRAME   : Z := 8.
Definition FL_THIN_DOWN_FRAME : Z := 9.
Definition FL_ENGRAVED_BOX    : Z := 10.
Definition FL_EMBOSSED_BOX    : Z := 11.
Definition FL_ENGRAVED_FRAME  : Z := 12.
Definition FL_EMBOSSED_FRAME  : Z := 13.
Definition FL_BORDER_BOX      : Z := 14.
Definition FL_BORDER_FRAME    : Z := 16.
Definition FL_MAX_BOXTYPE     : Z := 255.

(** [inline Fl_Boxtype fl_box(Fl_Boxtype b) {
       return (Fl_Boxtype)((b<FL_UP_BOX||b%4>1)?b:(b-2)); }] *)
Definition fl_box (b : Z) : Z :=
  if (b <? FL_UP_BOX) || (c_rem b 4 >? 1) then b else b - 2.

(** [inline Fl_Boxtype fl_down(Fl_Boxtype b) {
       return (Fl_Boxtype)((b<FL_UP_BOX)?b:(b|1)); }] *)
Definition fl_down (b : Z) : Z :=
  if b <? FL_UP_BOX then b else Z.lor b 1.

(** [inline Fl_Boxtype fl_frame(Fl_Boxtype b) {
       return (Fl_Boxtype)((b%4<2)?b:(b+2)); }] *)
Definition fl_frame (b : Z) : Z :=
  if c_rem b 4 <? 2 then b else b + 2.

(** From [FL_UP_BOX] on, a filled box has remainder 2 or 3 by four and a
    frame has remainder 0 or 1. *)
Definition is_box (b : Z) : bool := (FL_UP_BOX <=? b) && (c_rem b 4 >? 1).
Definition is_frame (b : Z) : bool := (FL_UP_BOX <=? b) && (c_rem b 4 <? 2).

End Boxtype.

(* ===================================================================== *)
(** ** fl_encoding_mac_roman.cpp                                           *)
(* ===================================================================== *)

Module MacRoman.

(** [static uchar latin2roman[128]]: Windows-1252/Latin 1 into MacRoman. *)
Definition latin2roman : list Z :=
  [0xdb; 0xc0; 0xe2; 0xc4; 0xe3; 0xc9; 0xa0; 0xe0; 0xf6; 0xe4; 0xc0; 0xdc; 0xce; 0xc0; 0xc0; 0xc0;
   0xc0; 0xd4; 0xd5; 0xd2; 0xd3; 0xa5; 0xd0; 0xd1; 0xf7; 0xaa; 0xc0; 0xdd; 0xcf; 0xc0; 0xc0; 0xd9;
   0xca; 0xc1; 0xa2; 0xa3; 0xc0; 0xb4; 0xc0; 0xa4; 0xac; 0xa9; 0xbb; 0xc7; 0xc2; 0xc0; 0xa8; 0xf8;
   0xa1; 0xb1; 0xc0; 0xc0; 0xab; 0xb5; 0xa6; 0xe1; 0xfc; 0xc0; 0xbc; 0xc8; 0xc0; 0xc0; 0xc0; 0xc0;
   0xcb; 0xe7; 0xe5; 0xcc; 0x80; 0x81; 0xae; 0x82; 0xe9; 0x83; 0xe6; 0xe8; 0xed; 0xea; 0xeb; 0xec;
   0xc0; 0x84; 0xf1; 0xee; 0xef; 0xcd; 0x85; 0xc0; 0xaf; 0xf4; 0xf2; 0xf3; 0x86; 0xc0; 0xc0; 0xa7;
   0x88; 0x87; 0x89; 0x8b; 0x8a; 0x8c; 0xbe; 0x8d; 0x8f; 0x8e; 0x90; 0x91; 0x93; 0x92; 0x94; 0x95;
   0xc0; 0x96; 0x98; 0x97; 0x99; 0x9b; 0x9a; 0xd6; 0xbf; 0x9d; 0x9c; 0x9e; 0x9f; 0xc0; 0xc0; 0xd8].

(** [static uchar roman2latin[128]]: MacRoman into Windows-1252/Latin 1. *)
Definition roman2latin : list Z :=
  [0xc4; 0xc5; 0xc7; 0xc9; 0xd1; 0xd6; 0xdc; 0xe1; 0xe0; 0xe2; 0xe4; 0xe3; 0xe5; 0xe7; 0xe9; 0xe8;
   0xea; 0xeb; 0xed; 0xec; 0xee; 0xef; 0xf1; 0xf3; 0xf2; 0xf4; 0xf6; 0xf5; 0xfa; 0xf9; 0xfb; 0xfc;
   0x86; 0xb0; 0xa2; 0xa3; 0xa7; 0x95; 0xb6; 0xdf; 0xae; 0xa9; 0x99; 0xb4; 0xa8; 0xbf; 0xc6; 0xd8;
   0xbf; 0xb1; 0xbf; 0xbf; 0xa5; 0xb5; 0xbf; 0xbf; 0xbf; 0xbf; 0xbf; 0xaa; 0xba; 0xbf; 0xe6; 0xf8;
   0xbf; 0xa1; 0xac; 0xbf; 0x83; 0xbf; 0xbf; 0xab; 0xbb; 0x85; 0xa0; 0xc0; 0xc3; 0xd5; 0x8c; 0x9c;
   0x96; 0x97; 0x93; 0x94; 0x91; 0x92; 0xf7; 0xbf; 0xff; 0x9f; 0xbf; 0x80; 0x8b; 0x9b; 0xbf; 0xbf;
   0x87; 0xb7; 0x82; 0x84; 0x89; 0xc2; 0xca; 0xc1; 0xcb; 0xc8; 0xcd; 0xce; 0xcf; 0xcc; 0xd3; 0xd4;
   0xbf; 0xd2; 0xda; 0xdb; 0xd9; 0xbf; 0x88; 0x98; 0xaf; 0xbf; 0xbf; 0xbf; 0xb8; 0xbf; 0xbf; 0xbf].

(** The body of the loop of [local_to_mac_roman], for the byte [c]:
    [if (c>127) *dst = latin2roman[c-128]; else *dst = c;] *)
Definition to_roman (c : Z) : Z :=
  if c >? 127 then nth (Z.to_nat (c - 128)) latin2roman 0 else c.

(** The body of the loop of [mac_roman_to_local]:
    [if (c>127) *dst++ = roman2latin[c-128]; else *dst++ = c;] *)
Definition to_local (c : Z) : Z :=
  if c >? 127 then nth (Z.to_nat (c - 128)) roman2latin 0 else c.

(** The static variables [static char *buf = 0; static int n_buf = 0;].
    [buf] is the null pointer ([None]) or a block of bytes got from
    [malloc]; a byte of the block that was never written has no value
    ([None]). *)
Record statics : Type := mk {
  buf   : option (list (option Z));
  n_buf : Z
}.

Definition initial : statics := mk None 0.

(** [strlen(t)] for the bytes found at [t]: the number of bytes before
    the first NUL; there is no result when no NUL is found. *)
Fixpoint strlen (t : list Z) : option Z :=
  match t with
  | [] => None
  | c :: t' => if c =? 0 then Some 0 else Z.succ <$> strlen t'
  end.

(** [if (n==-1) n = (int) strlen(t);] *)
Definition text_length (t : list Z) (n : Z) : option Z :=
  if n =? -1 then strlen t else Some n.

(** The buffer is allocated anew when [n <= n_buf] ([malloc] is taken to
    give a block):
<<
  if (n<=n_buf) {
    n_buf = (n + 257) & 0x7fffff00;
    if (buf) free(buf);
    buf = (char* )malloc(n_buf);
  }
>> *)
Definition reserve (n : Z) (st : statics) : statics :=
  if n <=? n_buf st then
    let k := Z.land (n + 257) 0x7fffff00 in
    mk (Some (replicate (Z.to_nat k) None)) k
  else st.

(** [for ( ; n>0; n--) { uchar c = *src++; ... *dst++ = ...; }]: [n] bytes
    are read from [src] and written one after the other from the cell [i]
    of [dst] on.  A read after the end of [src] or a write after the end of
    [dst] has no defined result. *)
Fixpoint convert_loop (src : list Z) (dst : list (option Z)) (i n : nat)
    : option (list (option Z)) :=
  match n with
  | O => Some dst
  | S n' =>
      match src with
      | c :: src' =>
          if (i <? length dst)%nat
          then convert_loop src' (<[i := Some (to_local c)]> dst) (S i) n'
          else None
      | [] => None
      end
  end.

(** [for ( ; n>0; n--) { uchar c = *src; if (c>127) *dst = latin2roman[c-128];
    else *dst = c; }]: neither pointer moves, every turn of the loop reads
    the first byte of [src] and writes the first cell of [dst]. *)
Fixpoint first_cell_loop (src : list Z) (dst : list (option Z)) (n : nat)
    : option (list (option Z)) :=
  match n with
  | O => Some dst
  | S n' =>
      match src, dst with
      | c :: _, _ :: _ => first_cell_loop src (<[O := Some (to_roman c)]> dst) n'
      | _, _ => None
      end
  end.

(** The two converters share their frame: the length, the buffer, the
    loop, and [buf] as the result.  [None] is a run that reads or writes
    outside a block, or through the null pointer. *)
Definition convert (loop : list Z -> list (option Z) -> nat -> option (list (option Z)))
    (t : list Z) (n : Z) (st : statics) : option statics :=
  match text_length t n with
  | None => None
  | Some n1 =>
      let st1 := reserve n1 st in
      if n1 >? 0 then
        match buf st1 with
        | None => None
        | Some dst =>
            match loop t dst (Z.to_nat n1) with
            | Some dst' => Some (mk (Some dst') (n_buf st1))
            | None => None
            end
        end
      else Some st1
  end.

(** [const char *Fl_System_Driver::mac_roman_to_local(const char *t, int n)] *)
Definition mac_roman_to_local (t : list Z) (n : Z) (st : statics) : option statics :=
  convert (fun src dst k => convert_loop src dst O k) t n st.

(** [const char *Fl_System_Driver::local_to_mac_roman(const char *t, int n)] *)
Definition local_to_mac_roman (t : list Z) (n : Z) (st : statics) : option statics :=
  convert first_cell_loop t n st.

(** The static variables are consistent: the block has [n_buf] bytes, and
    there is no block only before the first allocation. *)
Definition consistent (st : statics) : Prop :=
  match buf st with
  | None => n_buf st = 0
  | Some dst => Z.of_nat (length dst) = n_buf st
  end.

End MacRoman.

(* ===================================================================== *)
(** ** Checks on bytes                                                     *)
(* ===================================================================== *)

(** The arithmetic of the two xterm flags of CharStyle on a [uchar]:
    what clearing and setting a flag give, and how they compose. *)
Definition flag_facts (cf : Z) : bool :=
  let clr m x := CInt.to_uchar (Z.land x (Z.lnot m)) in
  let set m x := CInt.to_uchar (Z.lor x m) in
  (clr 1 cf =? Z.land cf 254) && (set 1 cf =? Z.lor cf 1)
  && (clr 2 cf =? Z.land cf 253) && (set 2 cf =? Z.lor cf 2)
  && (clr 1 (clr 2 cf) =? clr 2 (clr 1 cf)) && (set 1 (set 2 cf) =? set 2 (set 1 cf))
  && (clr 1 (set 2 cf) =? set 2 (clr 1 cf)) && (set 1 (clr 2 cf) =? clr 2 (set 1 cf))
  && (clr 1 (set 1 cf) =? clr 1 cf) && (set 1 (clr 1 cf) =? set 1 cf)
  && (clr 2 (set 2 cf) =? clr 2 cf) && (set 2 (clr 2 cf) =? set 2 cf).

(** The conversions between the versions of a box type, on one box
    type: each is idempotent, [fl_box] and [fl_frame] undo each other,
    [fl_down] commutes with both, and the results are of the kind asked
    for and inside the enumeration. *)
Definition boxtype_facts (b : Z) : bool :=
  let fl_box := Boxtype.fl_box in
  let fl_down := Boxtype.fl_down in
  let fl_frame := Boxtype.fl_frame in
  (fl_box (fl_box b) =? fl_box b) && (fl_frame (fl_frame b) =? fl_frame b)
  && (fl_down (fl_down b) =? fl_down b)
  && (fl_box (fl_frame b) =? fl_box b) && (fl_frame (fl_box b) =? fl_frame b)
  && (fl_down (fl_box b) =? fl_box (fl_down b))
  && (fl_down (fl_frame b) =? fl_frame (fl_down b))
  && ((b <? Boxtype.FL_UP_BOX)
      || (Boxtype.is_box (fl_box b) && Boxtype.is_frame (fl_frame b) && Z.odd (fl_down b)))
  && ((Boxtype.FL_UP_BOX <=? b)
      || ((fl_box b =? b) && (fl_frame b =? b) && (fl_down b =? b)))
  && (0 <=? fl_box b) && (fl_box b <=? Boxtype.FL_MAX_BOXTYPE)
  && (0 <=? fl_down b) && (fl_down b <=? Boxtype.FL_MAX_BOXTYPE)
  && ((b <=? 253) || Boxtype.is_frame b || (fl_frame b =? b + 2))
  && ((253 <? b) || (fl_frame b <=? Boxtype.FL_MAX_BOXTYPE)).

(** The two tables on one byte: both conversions give bytes, leave ASCII
    as it is and keep the other bytes above 127; a byte is got back from
    its image unless the image is the replacement character of the target
    (0xbf in Latin 1, 0xc0 in MacRoman). *)
Definition table_facts (c : Z) : bool :=
  let to_local := MacRoman.to_local in
  let to_roman := MacRoman.to_roman in
  (0 <=? to_local c) && (to_local c <? 256) && (0 <=? to_roman c) && (to_roman c <? 256)
  && ((127 <? c) || ((to_local c =? c) && (to_roman c =? c)))
  && ((c <=? 127) || ((127 <? to_local c) && (127 <? to_roman c)))
  && ((to_local c =? 0xbf) || (to_roman (to_local c) =? c))
  && ((to_roman c =? 0xc0) || (to_local (to_roman c) =? c)).

(* ===================================================================== *)
(** ** Runs of calls on a PartialUtf8Buf                                   *)
(* ===================================================================== *)

Module Utf8Calls.
Import PartialUtf8Buf.



Section WithUtf8len.
Variable utf8len : Z -> Z.



(** What holds of an assembler between calls: the array has its ten
    cells, the buffered length is from 0 to 9, and the expected length is 0
    for an empty buffer and the length that the first buffered byte
    announces otherwise. *)
Definition inv (b : t) : Prop :=
  wf b /\
  clen_ b = (if buflen_ b =? 0 then 0 else utf8len (nth 0 (buf_ b) 0)).

End WithUtf8len.
End Utf8Calls.

(* ===================================================================== *)
(** * Properties                                                           *)
(* ===================================================================== *)

(* --------------------------------------------------------------------- *)
(** ** Machine arithmetic                                                  *)
(* --------------------------------------------------------------------- *)

(** On non-negative operands the [%] of C++ is the mathematical modulo. *)
Lemma c_rem_mod (a b : Z) : 0 <= a -> 0 < b -> CInt.c_rem a b = a mod b.
Proof. intros Ha Hb. unfold CInt.c_rem. apply Z.rem_mod_nonneg; lia. Qed.

Lemma c_rem_range (a b : Z) : 0 <= a -> 0 < b -> 0 <= CInt.c_rem a b < b.
Proof.
  intros Ha Hb. rewrite c_rem_mod by lia. apply Z.mod_pos_bound. lia.
Qed.

(** A decidable property checked on the 256 values of a byte holds of
    every byte. *)
Lemma byte_cases (P : Z -> bool) :
  forallb P (map Z.of_nat (seq 0 256)) = true ->
  forall c : Z, 0 <= c < 256 -> P c = true.
Proof.
  intros Hall c Hc. rewrite forallb_forall in Hall. apply Hall.
  apply in_map_iff. exists (Z.to_nat c). split; [lia|]. apply in_seq. lia.
Qed.

(* --------------------------------------------------------------------- *)
(** ** CharStyle: SGR reset                                                *)
(* --------------------------------------------------------------------- *)

(** C6. SGR reset: for every character style, after [sgr_reset] (the
    handler of ESC[0m) the attribute bits are [NORMAL] and the current
    foreground and background colours are [defaultfgcolor] and
    [defaultbgcolor]; the defaults themselves and the font are untouched. *)
Theorem sgr_reset_restores_defaults (s : CharStyle.t) :
  CharStyle.attrib_ (CharStyle.sgr_reset s) = Attrib.NORMAL /\
  CharStyle.fgcolor_ (CharStyle.sgr_reset s) = CharStyle.defaultfgcolor_ s /\
  CharStyle.bgcolor_ (CharStyle.sgr_reset s) = CharStyle.defaultbgcolor_ s /\
  CharStyle.defaultfgcolor_ (CharStyle.sgr_reset s) = CharStyle.defaultfgcolor_ s /\
  CharStyle.defaultbgcolor_ (CharStyle.sgr_reset s) = CharStyle.defaultbgcolor_ s /\
  CharStyle.fontface_ (CharStyle.sgr_reset s) = CharStyle.fontface_ s /\
  CharStyle.fontsize_ (CharStyle.sgr_reset s) = CharStyle.fontsize_ s.
Proof.
  unfold CharStyle.sgr_reset.
  destruct (negb (Z.land (CharStyle.charflags_ (CharStyle.attrib Attrib.NORMAL s))
                         CharFlags.FG_XTERM =? 0)) eqn:Hfg;
  match goal with
  | |- context [if ?b then _ else _] => destruct b
  end; repeat split.
Qed.

(** A cell written with the style left by a reset carries the default
    colours and no attribute ([Utf8Char.text_utf8] is the modelled stamp). *)
Lemma stamp_after_sgr_reset (s : CharStyle.t) (text : list Z) (len : Z) (u : Utf8Char.t) :
  let u' := Utf8Char.text_utf8 text len (CharStyle.sgr_reset s) u in
  Utf8Char.attrib_ u' = Attrib.NORMAL /\
  Utf8Char.fgcolor_ u' = CharStyle.defaultfgcolor_ s /\
  Utf8Char.bgcolor_ u' = CharStyle.defaultbgcolor_ s.
Proof.
  unfold Utf8Char.text_utf8, CharStyle.sgr_reset.
  cbn [Utf8Char.attrib_ Utf8Char.fgcolor_ Utf8Char.bgcolor_].
  destruct (negb (Z.land (CharStyle.charflags_ (CharStyle.attrib Attrib.NORMAL s))
                         CharFlags.FG_XTERM =? 0));
  match goal with
  | |- context [if ?b then _ else _] => destruct b
  end; repeat split.
Qed.

(** The reset keeps the colour-source flags of a style whose flags are a
    [uchar]: a colour that was an xterm colour stays one. *)
Lemma sgr_reset_keeps_charflags (s : CharStyle.t) :
  0 <= CharStyle.charflags_ s < 256 ->
  CharStyle.charflags_ (CharStyle.sgr_reset s) = CharStyle.charflags_ s.
Proof.
  intros Hcf.
  pose (P := fun cf : Z =>
    let cf1 := if negb (Z.land cf 1 =? 0)
               then CInt.to_uchar (Z.lor cf 1)
               else CInt.to_uchar (Z.land cf (Z.lnot 1)) in
    (if negb (Z.land cf1 2 =? 0)
     then CInt.to_uchar (Z.lor cf1 2)
     else CInt.to_uchar (Z.land cf1 (Z.lnot 2))) =? cf).
  assert (Hall : P (CharStyle.charflags_ s) = true).
  { apply byte_cases; [vm_compute; reflexivity | exact Hcf]. }
  unfold P in Hall. cbv zeta in Hall. apply Z.eqb_eq in Hall.
  unfold CharStyle.sgr_reset, CharStyle.fgcolor_xterm, CharStyle.fgcolor,
    CharStyle.bgcolor_xterm, CharStyle.bgcolor, CharStyle.set_charflag,
    CharStyle.clr_charflag, CharFlags.FG_XTERM, CharFlags.BG_XTERM.
  cbn [CharStyle.charflags_ CharStyle.attrib CharStyle.with_attrib
       CharStyle.with_fgcolor CharStyle.with_bgcolor CharStyle.with_charflags
       CharStyle.defaultfgcolor_ CharStyle.defaultbgcolor_].
  destruct (negb (Z.land (CharStyle.charflags_ s) 1 =? 0));
    cbn [CharStyle.charflags_ CharStyle.with_charflags] in *;
    match goal with
    | |- context [if ?b then _ else _] => destruct b
    end; cbn [CharStyle.charflags_ CharStyle.with_charflags]; exact Hall.
Qed.

(* --------------------------------------------------------------------- *)
(** ** Cursor: the clamp at zero                                           *)
(* --------------------------------------------------------------------- *)

Lemma cursor_ctor_nonneg : Cursor.nonneg Cursor.ctor.
Proof. split; simpl; lia. Qed.

(** A value that is an [int] is stored as it is. *)
Lemma to_int_id (z : Z) :
  CInt.INT_MIN <= z <= CInt.INT_MAX -> CInt.to_int z = z.
Proof.
  unfold CInt.INT_MIN, CInt.INT_MAX, CInt.to_int. intros Hz.
  rewrite Z.mod_small by lia. lia.
Qed.

Lemma cursor_run_nonneg (c : Cursor.t) (o : Cursor.op) :
  Cursor.nonneg c -> Cursor.fits c o = true -> Cursor.nonneg (Cursor.run c o).
Proof.
  intros [Hr Hc] Hfit. destruct o; split; cbn [Cursor.run Cursor.fits] in *;
    unfold Cursor.col, Cursor.row, Cursor.h, Cursor.fgcolor, Cursor.bgcolor,
      Cursor.left, Cursor.right, Cursor.up, Cursor.down, Cursor.home, Cursor.scroll;
    cbn [Cursor.row_ Cursor.col_]; try assumption; try lia.
  - destruct (val >=? 0) eqn:E; lia.
  - destruct (val >=? 0) eqn:E; lia.
  - destruct (Cursor.col_ c >? 0) eqn:E; lia.
  - apply Z.ltb_lt in Hfit. unfold CInt.INT_MAX in Hfit.
    rewrite to_int_id by (unfold CInt.INT_MIN, CInt.INT_MAX; lia). lia.
  - destruct (Cursor.row_ c >? 0) eqn:E; lia.
  - apply Z.ltb_lt in Hfit. unfold CInt.INT_MAX in Hfit.
    rewrite to_int_id by (unfold CInt.INT_MIN, CInt.INT_MAX; lia). lia.
Qed.

Lemma cursor_fold_nonneg (ops : list Cursor.op) (c : Cursor.t) :
  Cursor.nonneg c -> Cursor.all_fit ops c = true ->
  Cursor.nonneg (fold_left Cursor.run ops c).
Proof.
  revert c. induction ops as [|o ops IH]; intros c Hc Hfit; cbn [fold_left].
  - exact Hc.
  - cbn [Cursor.all_fit] in Hfit. apply andb_true_iff in Hfit.
    destruct Hfit as [Ho Hops].
    apply IH; [apply cursor_run_nonneg; assumption | exact Hops].
Qed.

Lemma cursor_up_at_top (n : nat) (c : Cursor.t) :
  Cursor.row_ c = 0 ->
  Cursor.row_ (Nat.iter n Cursor.up c) = 0 /\
  Cursor.col_ (Nat.iter n Cursor.up c) = Cursor.col_ c.
Proof.
  intros H0. induction n as [|n [IHr IHc]]; simpl.
  - auto.
  - rewrite IHr. simpl. auto.
Qed.

Lemma cursor_left_at_margin (n : nat) (c : Cursor.t) :
  Cursor.col_ c = 0 ->
  Cursor.col_ (Nat.iter n Cursor.left c) = 0 /\
  Cursor.row_ (Nat.iter n Cursor.left c) = Cursor.row_ c.
Proof.
  intros H0. induction n as [|n [IHc IHr]]; simpl.
  - auto.
  - rewrite IHc. simpl. auto.
Qed.

(** The claim of C4 fails where the increment of [right()] or [down()]
    overflows: on a constructed cursor, [col(2147483647)] leaves both
    coordinates non-negative, and [right()] then leaves the column at
    [-2147483648]; likewise for [row(2147483647)] and [down()]. *)
Lemma right_at_int_max_is_negative :
  0 <= Cursor.row_ (Cursor.col 2147483647 Cursor.ctor) /\
  0 <= Cursor.col_ (Cursor.col 2147483647 Cursor.ctor) /\
  Cursor.col_ (Cursor.right (Cursor.col 2147483647 Cursor.ctor)) = -2147483648 /\
  Cursor.col_ (Cursor.run_all [Cursor.OpCol 2147483647; Cursor.OpRight]) < 0 /\
  Cursor.row_ (Cursor.run_all [Cursor.OpRow 2147483647; Cursor.OpDown]) < 0.
Proof. vm_compute. repeat split; congruence. Qed.

(** C4, amended. Cursor clamp: every operation of Cursor ([row(val)],
    [col(val)], [left()], [right()], [up()], [down()], [home()],
    [scroll(n)], and the setters of height and colours) leaves [row >= 0]
    and [col >= 0] on a cursor that had them, provided that [right()] is
    not called with the column at [INT_MAX] and [down()] is not called with
    the row at [INT_MAX]; so they hold after any sequence of calls on a
    constructed cursor in which no [right()] or [down()] meets [INT_MAX].
    Moving up any number of times from row 0 leaves the row at 0, and
    moving left any number of times from column 0 leaves the column at
    0. *)
Theorem cursor_clamped_nonneg (c : Cursor.t) (o : Cursor.op) (n : nat)
    (ops : list Cursor.op) :
  0 <= Cursor.row_ c -> 0 <= Cursor.col_ c ->
  Cursor.fits c o = true -> Cursor.all_fit ops Cursor.ctor = true ->
  (0 <= Cursor.row_ (Cursor.run c o) /\ 0 <= Cursor.col_ (Cursor.run c o)) /\
  (0 <= Cursor.row_ (Cursor.run_all ops) /\ 0 <= Cursor.col_ (Cursor.run_all ops)) /\
  Cursor.row_ (Nat.iter n Cursor.up (Cursor.row 0 c)) = 0 /\
  Cursor.col_ (Nat.iter n Cursor.left (Cursor.col 0 c)) = 0.
Proof.
  intros Hr Hc Ho Hops. split; [|split; [|split]].
  - apply cursor_run_nonneg; [split; assumption | exact Ho].
  - apply cursor_fold_nonneg; [apply cursor_ctor_nonneg | exact Hops].
  - apply cursor_up_at_top. reflexivity.
  - apply cursor_left_at_margin. reflexivity.
Qed.

Lemma cursor_clamped_nonneg_witness :
  let c := Cursor.mk 2147483646 0 10 0xfffff000 0x00d00000 in
  let ops := [Cursor.OpCol 2147483646; Cursor.OpRight; Cursor.OpLeft; Cursor.OpUp;
              Cursor.OpDown; Cursor.OpRow (-7); Cursor.OpScroll (-5); Cursor.OpHome] in
  (0 <= Cursor.row_ (Cursor.run c Cursor.OpRight) /\
   0 <= Cursor.col_ (Cursor.run c Cursor.OpRight)) /\
  (0 <= Cursor.row_ (Cursor.run_all ops) /\ 0 <= Cursor.col_ (Cursor.run_all ops)) /\
  Cursor.row_ (Nat.iter 1000 Cursor.up (Cursor.row 0 c)) = 0 /\
  Cursor.col_ (Nat.iter 1000 Cursor.left (Cursor.col 0 c)) = 0.
Proof.
  intros c ops.
  apply (cursor_clamped_nonneg c Cursor.OpRight 1000 ops);
    [cbn; lia | cbn; lia | reflexivity | reflexivity].
Defined.

(* --------------------------------------------------------------------- *)
(** ** Utf8Char: the cleared cell                                          *)
(* --------------------------------------------------------------------- *)

(** C9. Cleared cell: for every cell and every style, after [clear(style)]
    the cell holds exactly the single space character, of length 1, its
    attribute bits and its character flags are zero, and its length is the
    UTF-8 encoding length of its bytes, within the 4 bytes of a cell. *)
Theorem clear_gives_blank_cell (u : Utf8Char.t) (style : CharStyle.t) :
  Utf8Char.text_utf8_bytes (Utf8Char.clear style u) = [32] /\
  Utf8Char.length (Utf8Char.clear style u) = 1 /\
  Utf8Char.attrib_ (Utf8Char.clear style u) = 0 /\
  Utf8Char.charflags_ (Utf8Char.clear style u) = 0 /\
  fl_utf8len (hd 0 (Utf8Char.text_ (Utf8Char.clear style u)))
    = Utf8Char.length (Utf8Char.clear style u) /\
  Utf8Char.length (Utf8Char.clear style u) <= Utf8Char.max_utf8_ /\
  Utf8Char.fgcolor_ (Utf8Char.clear style u) = CharStyle.fgcolor_ style /\
  Utf8Char.bgcolor_ (Utf8Char.clear style u) = CharStyle.bgcolor_ style.
Proof.
  repeat split; vm_compute; congruence.
Qed.

(** Clearing is idempotent. *)
Lemma clear_clear (u : Utf8Char.t) (style : CharStyle.t) :
  length (Utf8Char.text_ u) = 4%nat ->
  Utf8Char.clear style (Utf8Char.clear style u) = Utf8Char.clear style u.
Proof.
  intros H. destruct u as [txt l a f fg bg]. simpl in H.
  destruct txt as [|b0 [|b1 [|b2 [|b3 [|]]]]]; try discriminate.
  reflexivity.
Qed.

(* --------------------------------------------------------------------- *)
(** ** PartialUtf8Buf: appending to the partial buffer                     *)
(* --------------------------------------------------------------------- *)

Section PartialUtf8BufFacts.
Import PartialUtf8Buf.

(** The copy loop stores [n] bytes of [p] behind the buffered ones. *)
Lemma append_loop_spec (n : nat) : forall (b : t) (p : list Z),
  (n <= length p)%nat -> 0 <= buflen_ b ->
  buflen_ b + Z.of_nat n <= Z.of_nat (length (buf_ b)) ->
  buflen_ (append_loop b p n) = buflen_ b + Z.of_nat n /\
  clen_ (append_loop b p n) = clen_ b /\
  length (buf_ (append_loop b p n)) = length (buf_ b) /\
  bytes (append_loop b p n) = bytes b ++ firstn n p.
Proof.
  induction n as [|n IH]; intros b p Hp Hb Hfit.
  - unfold bytes. simpl. rewrite Z.add_0_r, app_nil_r. destruct p; auto.
  - destruct p as [|c p]; [simpl in Hp; lia|].
    simpl in Hp. cbn [append_loop].
    set (b1 := mk (<[Z.to_nat (buflen_ b):=c]> (buf_ b)) (buflen_ b + 1) (clen_ b)).
    assert (Hlen1 : length (buf_ b1) = length (buf_ b))
      by (unfold b1; cbn [buf_]; apply length_insert).
    destruct (IH b1 p) as (H1 & H2 & H3 & H4).
    + lia.
    + unfold b1; cbn [buflen_]; lia.
    + rewrite Hlen1. unfold b1; cbn [buflen_]. lia.
    + repeat split.
      * rewrite H1. unfold b1; cbn [buflen_]. lia.
      * rewrite H2. reflexivity.
      * rewrite H3. exact Hlen1.
      * rewrite H4. unfold bytes, b1. cbn [buf_ buflen_].
        replace (Z.to_nat (buflen_ b + 1)) with (S (Z.to_nat (buflen_ b))) by lia.
        rewrite (take_S_r _ _ c).
        -- rewrite take_insert_ge by lia. rewrite <- app_assoc. reflexivity.
        -- apply list_lookup_insert_eq. lia.
Qed.

(** C10. A call of [append(p, len)] with [len <= 0] returns [true] and
    leaves the partial buffer as it was: the bytes, the buffered length and
    the expected character length keep their values. *)
Theorem append_nothing_is_noop (utf8len : Z -> Z) (b : t) (p : list Z) (len : Z) :
  len <= 0 ->
  append utf8len p len b = (b, true).
Proof.
  intros Hlen. unfold append.
  destruct (len <=? 0) eqn:E; [reflexivity | lia].
Qed.

Lemma append_nothing_is_noop_witness :
  append fl_utf8len [0x82; 0xac] (-1) (mk [0xe2; 0; 0; 0; 0; 0; 0; 0; 0; 0] 1 3)
  = (mk [0xe2; 0; 0; 0; 0; 0; 0; 0; 0; 0] 1 3, true).
Proof.
  apply (append_nothing_is_noop fl_utf8len
           (mk [0xe2; 0; 0; 0; 0; 0; 0; 0; 0; 0] 1 3) [0x82; 0xac] (-1)).
  lia.
Defined.




(** The buffer is complete exactly when it holds the bytes its lead byte
    announced. *)
Lemma is_complete_iff (b : t) :
  is_complete b = true <-> buflen_ b <> 0 /\ buflen_ b = clen_ b.
Proof.
  unfold is_complete. rewrite andb_true_iff, negb_true_iff, Z.eqb_neq, Z.eqb_eq.
  reflexivity.
Qed.

End PartialUtf8BufFacts.

(* --------------------------------------------------------------------- *)
(** ** RingBuffer: row accessors, invariant and scroll                     *)
(* --------------------------------------------------------------------- *)

Section RingBufferFacts.
Import RingBuffer.





(** In a ring with a non-negative offset, at least one history row and at
    least one display row, the four rows are the mathematical modulo and
    lie inside the ring. *)
Lemma ring_rows_in_range (rb : t) :
  0 < ring_rows rb -> 0 <= offset rb -> 1 <= hist_rows rb -> 1 <= disp_rows rb ->
  (hist_srow rb = (offset rb + 0) mod ring_rows rb /\
   hist_erow rb = (offset rb + hist_rows rb - 1) mod ring_rows rb /\
   disp_srow rb = (offset rb + hist_rows rb) mod ring_rows rb /\
   disp_erow rb = (offset rb + hist_rows rb + disp_rows rb - 1) mod ring_rows rb) /\
  0 <= hist_srow rb < ring_rows rb /\ 0 <= hist_erow rb < ring_rows rb /\
  0 <= disp_srow rb < ring_rows rb /\ 0 <= disp_erow rb < ring_rows rb.
Proof.
  unfold ring_rows, offset, hist_rows, disp_rows, hist_srow, hist_erow,
    disp_srow, disp_erow.
  intros Hrr Hoff Hh Hd.
  split; [repeat split; apply c_rem_mod; lia|].
  repeat split; apply c_rem_range; lia.
Qed.

(** Clearing cells keeps the size of the ring array. *)
Lemma clear_cells_length (style : CharStyle.t) (start count : nat)
    (cells : list Utf8Char.t) :
  length (clear_cells style start count cells) = length cells.
Proof.
  unfold clear_cells.
  rewrite !length_app, length_map, !length_take, !length_drop. lia.
Qed.

Lemma clear_disp_row_frame (drow : Z) (style : CharStyle.t) (rb : t) :
  geometry (clear_disp_row drow style rb) = geometry rb /\
  length (ring_chars_ (clear_disp_row drow style rb)) = length (ring_chars_ rb).
Proof.
  split; [reflexivity|]. unfold clear_disp_row, with_chars. cbn [ring_chars_].
  apply clear_cells_length.
Qed.

Lemma clear_disp_rows_from_frame (n : nat) : forall (drow : Z) (style : CharStyle.t) (rb : t),
  geometry (clear_disp_rows_from drow n style rb) = geometry rb /\
  length (ring_chars_ (clear_disp_rows_from drow n style rb)) = length (ring_chars_ rb).
Proof.
  induction n as [|n IH]; intros drow style rb; cbn [clear_disp_rows_from].
  - auto.
  - destruct (IH (drow + 1) style (clear_disp_row drow style rb)) as [Hg Hl].
    destruct (clear_disp_row_frame drow style rb) as [Hg' Hl'].
    split; congruence.
Qed.

Lemma inv_of_geometry (rb rb' : t) :
  geometry rb' = geometry rb ->
  length (ring_chars_ rb') = length (ring_chars_ rb) ->
  inv rb -> inv rb'.
Proof.
  unfold geometry, inv, hist_rows, disp_rows, ring_rows, hist_use, offset,
    ring_cols, ring_chars.
  intros Hg Hl. injection Hg as -> -> -> -> -> -> ->. rewrite Hl. auto.
Qed.

Lemma create_inv (drows dcols hrows : Z) (u0 : Utf8Char.t) :
  1 <= drows -> 1 <= dcols -> 0 <= hrows -> inv (create drows dcols hrows u0).
Proof.
  intros Hd Hc Hh.
  unfold inv, create, hist_rows, disp_rows, ring_rows, hist_use, offset,
    ring_cols, ring_chars. cbn.
  rewrite length_replicate. repeat split; lia || nia.
Qed.

(** What [scroll] does to the offset and to the history in use. *)
Lemma scroll_up_geometry (k : Z) (style : CharStyle.t) (rb : t) :
  0 < k ->
  geometry (scroll k style rb) =
    (ring_rows_ rb, ring_cols_ rb, nchars_ rb, hist_rows_ rb,
     Z.min (hist_rows_ rb) (hist_use_ rb + k), disp_rows_ rb,
     CInt.c_rem (offset_ rb + k) (ring_rows_ rb)) /\
  length (ring_chars_ (scroll k style rb)) = length (ring_chars_ rb).
Proof.
  intros Hk. unfold scroll. destruct (k >? 0) eqn:E; [|lia].
  unfold clear_disp_rows.
  match goal with
  | |- context [clear_disp_rows_from ?d ?n ?s ?r] =>
      destruct (clear_disp_rows_from_frame n d s r) as [Hg Hl]
  end.
  rewrite Hg, Hl. split; reflexivity.
Qed.

Lemma scroll_inv (rows : Z) (style : CharStyle.t) (rb : t) :
  inv rb -> inv (scroll rows style rb).
Proof.
  intros Hinv.
  destruct (Z.lt_trichotomy rows 0) as [Hneg | [Hz | Hpos]].
  - unfold scroll. destruct (rows >? 0) eqn:E1; [lia|].
    destruct (rows <? 0) eqn:E2; [|lia].
    revert Hinv.
    unfold inv, hist_rows, disp_rows, ring_rows, hist_use, offset, ring_cols,
      ring_chars, with_offset, hist_use_set. cbn.
    intros (H1 & H2 & H3 & H4 & H5 & H6 & H7 & H8).
    repeat split; try lia.
    + apply c_rem_range; lia.
    + apply c_rem_range; lia.
  - subst rows. exact Hinv.
  - destruct (scroll_up_geometry rows style rb Hpos) as [Hg Hl].
    revert Hinv.
    unfold inv, hist_rows, disp_rows, ring_rows, hist_use, offset, ring_cols,
      ring_chars.
    unfold geometry in Hg. injection Hg as -> -> -> -> -> -> ->. rewrite Hl.
    intros (H1 & H2 & H3 & H4 & H5 & H6 & H7 & H8).
    repeat split; try lia.
    + apply c_rem_range; lia.
    + apply c_rem_range; lia.
Qed.

(** Every valid ring satisfies the invariant. *)
Lemma valid_inv (rb : t) : valid rb -> inv rb.
Proof.
  induction 1 as [drows dcols hrows u0 Hd Hc Hh | rows style rb Hv IH].
  - apply create_inv; assumption.
  - apply scroll_inv, IH.
Qed.

(** C2. Ring invariant and scroll: in every valid ring buffer state
    [hist_rows + disp_rows == ring_rows] and [0 <= hist_use <= hist_rows];
    for every [k > 0], after [scroll(k, style)] the new [hist_use] is
    [min(hist_rows, old hist_use + k)] and the new offset is
    [(old offset + k) mod ring_rows]; the scrolled state is valid again,
    with the same numbers of rows and columns. *)
Theorem ring_invariant_and_scroll (rb : t) (k : Z) (style : CharStyle.t) :
  valid rb -> 0 < k ->
  (hist_rows rb + disp_rows rb = ring_rows rb /\
   0 <= hist_use rb <= hist_rows rb) /\
  hist_use (scroll k style rb) = Z.min (hist_rows rb) (hist_use rb + k) /\
  offset (scroll k style rb) = (offset rb + k) mod ring_rows rb /\
  valid (scroll k style rb) /\
  (hist_rows (scroll k style rb) = hist_rows rb /\
   disp_rows (scroll k style rb) = disp_rows rb /\
   ring_rows (scroll k style rb) = ring_rows rb /\
   ring_cols (scroll k style rb) = ring_cols rb) /\
  (hist_rows (scroll k style rb) + disp_rows (scroll k style rb)
     = ring_rows (scroll k style rb) /\
   0 <= hist_use (scroll k style rb) <= hist_rows (scroll k style rb)).
Proof.
  intros Hv Hk.
  pose proof (valid_inv rb Hv) as Hinv.
  pose proof (valid_inv _ (valid_scroll k style rb Hv)) as Hinv'.
  destruct (scroll_up_geometry k style rb Hk) as [Hg _].
  unfold geometry in Hg. injection Hg as G1 G2 G3 G4 G5 G6 G7.
  destruct Hinv as (H1 & H2 & H3 & H4 & H5 & H6 & H7 & H8).
  destruct Hinv' as (H1' & H2' & _).
  unfold hist_rows, disp_rows, ring_rows, hist_use, offset, ring_cols in *.
  split; [split; assumption|].
  split; [exact G5|].
  split; [rewrite G7; apply c_rem_mod; lia|].
  split; [apply valid_scroll, Hv|].
  split; [repeat split; assumption|].
  split; assumption.
Qed.

Lemma ring_invariant_and_scroll_witness :
  let rb := create 3 4 2 Utf8Char.blank in
  let style := CharStyle.mk 0 0 0xffffff00 0 0xffffff00 0 0 14 16 4 8 in
  (hist_rows rb + disp_rows rb = ring_rows rb /\
   0 <= hist_use rb <= hist_rows rb) /\
  hist_use (scroll 7 style rb) = Z.min (hist_rows rb) (hist_use rb + 7) /\
  offset (scroll 7 style rb) = (offset rb + 7) mod ring_rows rb /\
  valid (scroll 7 style rb) /\
  (hist_rows (scroll 7 style rb) = hist_rows rb /\
   disp_rows (scroll 7 style rb) = disp_rows rb /\
   ring_rows (scroll 7 style rb) = ring_rows rb /\
   ring_cols (scroll 7 style rb) = ring_cols rb) /\
  (hist_rows (scroll 7 style rb) + disp_rows (scroll 7 style rb)
     = ring_rows (scroll 7 style rb) /\
   0 <= hist_use (scroll 7 style rb) <= hist_rows (scroll 7 style rb)).
Proof.
  intros rb style.
  apply (ring_invariant_and_scroll rb 7 style).
  - apply valid_create; lia.
  - lia.
Defined.

End RingBufferFacts.

(* --------------------------------------------------------------------- *)
(** ** Selection: normalized result                                        *)
(* --------------------------------------------------------------------- *)

Section SelectionFacts.
Import Selection.

(** [get_selection] returns its two points in order, whatever the state. *)
Lemma get_selection_ordered (s : t) :
  lex_le (r_srow (get_selection s)) (r_scol (get_selection s))
         (r_erow (get_selection s)) (r_ecol (get_selection s)).
Proof.
  unfold get_selection, lex_le.
  destruct (srow_ s >? erow_ s) eqn:E1; cbn.
  - left. lia.
  - destruct (srow_ s =? erow_ s) eqn:E2; cbn.
    + destruct (scol_ s >? ecol_ s) eqn:E3; cbn; right; lia.
    + left. lia.
Qed.

(** C7. Selection normalization: for every selection made by
    [start(r1,c1)] then [extend(r2,c2)], in either drag direction,
    [get_selection] reports a selection whose start is not after its end in
    the order of rows, then columns, and whose two points are the two given
    ones; [start(5,10)] then [extend(2,3)] gives [srow=2, scol=3, erow=5,
    ecol=10]. *)
Theorem get_selection_normalizes (s : t) (r1 c1 r2 c2 : Z) (f1 f2 : bool) :
  let sel := get_selection (extend r2 c2 f2 (start r1 c1 f1 s)) in
  r_ok sel = true /\
  lex_le (r_srow sel) (r_scol sel) (r_erow sel) (r_ecol sel) /\
  ((r_srow sel, r_scol sel, r_erow sel, r_ecol sel) = (r1, c1, r2, c2) \/
   (r_srow sel, r_scol sel, r_erow sel, r_ecol sel) = (r2, c2, r1, c1)) /\
  get_selection (extend 2 3 f2 (start 5 10 f1 s)) = mk_range true 2 3 5 10 /\
  srow (extend 2 3 f2 (start 5 10 f1 s)) = 5 /\
  erow (extend 2 3 f2 (start 5 10 f1 s)) = 2 /\
  state (extend r2 c2 f2 (start r1 c1 f1 s)) = 2.
Proof.
  intros sel. split; [|split; [|split]].
  - unfold sel, get_selection.
    match goal with |- context [if ?b then _ else _] => destruct b end; reflexivity.
  - apply get_selection_ordered.
  - unfold sel, get_selection. cbn [extend start srow_ scol_ erow_ ecol_].
    match goal with |- context [if ?b then _ else _] => destruct b end; cbn; auto.
  - repeat split.
Qed.

End SelectionFacts.

(* --------------------------------------------------------------------- *)
(** ** EscapeSeq: bounded buffers and silent failure                       *)
(* --------------------------------------------------------------------- *)

Section EscapeSeqFacts.
Import EscapeSeq.

Lemma reset_idle (e : t) : idle (reset e).
Proof. repeat split. Qed.

Lemma reset_bounded (e : t) : bounded (reset e).
Proof. unfold bounded, maxbuff, maxvals. simpl. lia. Qed.

Lemma ctor_bounded : bounded ctor.
Proof. unfold bounded, maxbuff, maxvals. simpl. lia. Qed.

(** Storing a byte keeps the bounds, fails only on a full buffer, and
    a failure is a reset. *)
Lemma stored_cases (c code : Z) (e : t) :
  (Z.of_nat (length (buff_ e)) < maxbuff /\
   stored c code e =
     (mk (esc_mode_ e) (csi_ e) (buff_ e ++ [c]) (val_ e) (vals_ e)
         (save_row_ e) (save_col_ e), code)) \/
  (Z.of_nat (length (buff_ e)) >= maxbuff /\ stored c code e = (reset e, fail)).
Proof.
  unfold stored, append_buff, pfail.
  destruct (Z.of_nat (length (buff_ e)) >=? maxbuff) eqn:E; [right | left];
    split; try reflexivity; lia.
Qed.

Lemma stored_bounded (c code : Z) (e : t) :
  bounded e -> bounded (fst (stored c code e)).
Proof.
  intros [Hb Hv]. destruct (stored_cases c code e) as [[Hlt ->] | [_ ->]].
  - split; cbn [fst buff_ vals_]; [|exact Hv].
    rewrite length_app. simpl. lia.
  - apply reset_bounded.
Qed.

Lemma stored_fail (c code : Z) (e : t) :
  code <> fail -> snd (stored c code e) = fail -> stored c code e = (reset e, fail).
Proof.
  intros Hcode. destruct (stored_cases c code e) as [[_ ->] | [_ ->]];
    cbn [snd]; [contradiction | reflexivity].
Qed.

Lemma append_val_cases (e : t) :
  (Z.of_nat (length (vals_ e)) < maxvals /\
   append_val e =
     Some (mk (esc_mode_ e) (csi_ e) (buff_ e) None
              (vals_ e ++ [default 0 (val_ e)]) (save_row_ e) (save_col_ e))) \/
  (Z.of_nat (length (vals_ e)) >= maxvals /\ append_val e = None).
Proof.
  unfold append_val.
  destruct (Z.of_nat (length (vals_ e)) >=? maxvals) eqn:E; [right | left];
    split; try reflexivity; lia.
Qed.

Lemma append_val_bounded (e e' : t) :
  bounded e -> append_val e = Some e' ->
  bounded e' /\ reset e' = reset e /\ buff_ e' = buff_ e /\ esc_mode_ e' = esc_mode_ e.
Proof.
  intros [Hb Hv] H. destruct (append_val_cases e) as [[Hlt Heq] | [_ Heq]];
    rewrite Heq in H; [|discriminate].
  injection H as <-. repeat split; cbn [buff_ vals_]; try assumption.
  rewrite length_app. simpl. lia.
Qed.

Lemma parse_has_shape (c : Z) (e : t) : parse_shape c e (parse c e).
Proof.
  assert (Hsame : forall e', buff_ e' = buff_ e -> vals_ e' = vals_ e ->
            bounded e -> bounded e').
  { intros e' Hb Hv. unfold bounded. rewrite Hb, Hv. auto. }
  unfold parse, pfail.
  destruct (esc_mode_ e =? 0) eqn:E0.
  { destruct (c =? ESC); [|constructor].
    apply shape_stored; [discriminate | reflexivity | | rewrite E0; reflexivity].
    intros _. apply reset_bounded. }
  destruct (esc_mode_ e =? ESC) eqn:E1.
  { destruct (c =? CSI).
    { apply shape_stored;
        [discriminate | reflexivity | apply Hsame; reflexivity
        | rewrite E0; reflexivity]. }
    destruct ((48 <=? c) && (c <=? 126)); [|constructor].
    apply shape_stored;
      [discriminate | reflexivity | apply Hsame; reflexivity
      | rewrite E0; reflexivity]. }
  destruct (esc_mode_ e =? CSI) eqn:E2; [|constructor].
  destruct (is_digit c).
  { apply shape_stored;
      [discriminate | reflexivity | apply Hsame; reflexivity
      | rewrite E0; reflexivity]. }
  destruct (c =? 59).
  { destruct (append_val e) as [e'|] eqn:Ev; [|constructor].
    destruct (append_val_cases e) as [[Hlt Heq] | [_ Heq]]; rewrite Heq in Ev;
      [|discriminate].
    injection Ev as <-.
    apply shape_stored; [discriminate | reflexivity | | rewrite E0; reflexivity].
    intros [Hb Hv]. split; cbn [buff_ vals_]; [exact Hb|].
    rewrite length_app. simpl. lia. }
  destruct (c =? 63).
  { apply shape_stored;
      [discriminate | reflexivity | apply Hsame; reflexivity
      | rewrite E0; reflexivity]. }
  destruct (is_final c); [|constructor].
  destruct (val_ e) as [v|] eqn:Hval.
  - destruct (append_val e) as [e'|] eqn:Ev; [|constructor].
    destruct (append_val_cases e) as [[Hlt Heq] | [_ Heq]]; rewrite Heq in Ev;
      [|discriminate].
    injection Ev as <-.
    apply shape_stored; [discriminate | reflexivity | | rewrite E0; reflexivity].
    intros [Hb Hv]. split; cbn [buff_ vals_ esc_mode_set]; [exact Hb|].
    rewrite length_app. simpl. lia.
  - apply shape_stored;
      [discriminate | reflexivity | apply Hsame; reflexivity
      | rewrite E0; reflexivity].
Qed.

(** One byte keeps the bounds of the buffers. *)
Lemma parse_bounded (c : Z) (e : t) : bounded e -> bounded (fst (parse c e)).
Proof.
  intros Hbd. destruct (parse_has_shape c e) as [|code e' _ _ Hb _].
  - apply reset_bounded.
  - apply stored_bounded, Hb, Hbd.
Qed.

(** A failed step leaves the reset parser. *)
Lemma parse_fail_resets (c : Z) (e : t) :
  snd (parse c e) = fail -> parse c e = (reset e, fail).
Proof.
  destruct (parse_has_shape c e) as [|code e' Hcode Hreset _ _]; [reflexivity|].
  intros Hf. rewrite (stored_fail _ _ _ Hcode Hf), Hreset. reflexivity.
Qed.

(** With the raw buffer full, any byte of a sequence in progress fails. *)
Lemma parse_full_buffer_fails (c : Z) (e : t) :
  parse_in_progress e = true ->
  Z.of_nat (length (buff_ e)) >= maxbuff ->
  parse c e = (reset e, fail).
Proof.
  intros Hprog Hfull.
  assert (E0 : (esc_mode_ e =? 0) = false)
    by (unfold parse_in_progress in Hprog; destruct (esc_mode_ e =? 0);
        [discriminate | reflexivity]).
  destruct (parse_has_shape c e) as [|code e' _ Hreset _ Hbuff]; [reflexivity|].
  rewrite E0 in Hbuff.
  destruct (stored_cases c code e') as [[Hlt _] | [_ ->]].
  - rewrite Hbuff in Hlt. lia.
  - rewrite Hreset. reflexivity.
Qed.

Lemma parse_all_snoc (bs : list Z) (c : Z) (e : t) :
  parse_all (bs ++ [c]) e = parse c (fst (parse_all bs e)).
Proof. unfold parse_all. rewrite fold_left_app. reflexivity. Qed.

(** Any byte sequence keeps the bounds of the buffers. *)
Lemma parse_all_bounded (bs : list Z) (e : t) :
  bounded e -> bounded (fst (parse_all bs e)).
Proof.
  intros Hbd. induction bs as [|c bs IH] using rev_ind.
  - exact Hbd.
  - rewrite parse_all_snoc. apply parse_bounded, IH.
Qed.

End EscapeSeqFacts.

(* --------------------------------------------------------------------- *)
(** ** Fl_Terminal: failed sequences and the output path                   *)
(* --------------------------------------------------------------------- *)

(** An ASCII byte is a character of one byte. *)
Lemma fl_utf8len_ascii (c : Z) : 0 <= c < 128 -> fl_utf8len c = 1.
Proof.
  intros Hc.
  assert (H : (negb (c <? 128) || (fl_utf8len c =? 1)) = true).
  { apply (byte_cases (fun c => negb (c <? 128) || (fl_utf8len c =? 1)));
      [vm_compute; reflexivity | lia]. }
  destruct (c <? 128) eqn:E; [|lia]. apply Z.eqb_eq. exact H.
Qed.

Section TerminalFacts.
Import Terminal.

Variable print_char : list Z -> t -> t.
Variable handle_ctrl : Z -> t -> t.
Variable handle_escseq : t -> t.
Variable handle_unknown_char : t -> t.
Variable is_ctrl : Z -> bool.

Local Abbreviation dispatch := (dispatch print_char handle_ctrl handle_escseq is_ctrl).
Local Abbreviation feed :=
  (feed print_char handle_ctrl handle_escseq handle_unknown_char is_ctrl).
Local Abbreviation append :=
  (append print_char handle_ctrl handle_escseq handle_unknown_char is_ctrl).

(** A byte on which the parser fails changes the parser only: it is reset. *)
Lemma dispatch_failed_sequence (c : Z) (tty : t) :
  ansi_ tty = true ->
  EscapeSeq.parse_in_progress (escseq tty) = true ->
  snd (EscapeSeq.parse c (escseq tty)) = EscapeSeq.fail ->
  dispatch [c] tty = with_escseq (EscapeSeq.reset (escseq tty)) tty.
Proof.
  intros Hansi Hprog Hfail. unfold Terminal.dispatch. cbn [hd].
  rewrite Hansi, Hprog. cbn [andb orb].
  rewrite (parse_fail_resets _ _ Hfail). reflexivity.
Qed.

(** With the parser idle, a byte that is neither ESC nor a control
    character is printed. *)
Lemma dispatch_idle_prints (c : Z) (tty : t) :
  EscapeSeq.parse_in_progress (escseq tty) = false ->
  c <> EscapeSeq.ESC -> is_ctrl c = false ->
  dispatch [c] tty = print_char [c] tty.
Proof.
  intros Hidle Hc Hctrl. unfold Terminal.dispatch. cbn [hd].
  rewrite Hidle, Hctrl. apply Z.eqb_neq in Hc. rewrite Hc.
  rewrite andb_false_r. reflexivity.
Qed.

(** With no character in progress, an ASCII byte goes to the dispatch. *)
Lemma feed_ascii (c : Z) (tty : t) :
  PartialUtf8Buf.buflen (pub_ tty) = 0 -> 0 <= c < 128 ->
  feed tty c = dispatch [c] tty.
Proof.
  intros Hpub Hc. unfold Terminal.feed, start_char.
  rewrite Hpub, (fl_utf8len_ascii c Hc). reflexivity.
Qed.

(** C8. Escape parser, bounded buffers and silent failure: the parser
    holds at most 80 raw bytes ([maxbuff]) and at most 20 integer
    parameters ([maxvals]) after any byte sequence; a byte that exceeds
    either bound makes [parse(c)] return [fail] and resets the parser to
    idle, as does every failure; the reset parser starts the next sequence
    on ESC; in the terminal the failing byte is consumed without any other
    effect, and the next printable byte is printed. *)
Theorem escape_parser_bounded_and_silent :
  EscapeSeq.maxbuff = 80 /\ EscapeSeq.maxvals = 20 /\
  (forall bs : list Z,
     Z.of_nat (length (EscapeSeq.buff_ (fst (EscapeSeq.parse_all bs EscapeSeq.ctor)))) <= 80 /\
     Z.of_nat (length (EscapeSeq.vals_ (fst (EscapeSeq.parse_all bs EscapeSeq.ctor)))) <= 20) /\
  (forall (c : Z) (e : EscapeSeq.t),
     EscapeSeq.parse_in_progress e = true ->
     Z.of_nat (length (EscapeSeq.buff_ e)) >= EscapeSeq.maxbuff ->
     EscapeSeq.parse c e = (EscapeSeq.reset e, EscapeSeq.fail)) /\
  (forall (c : Z) (e : EscapeSeq.t),
     EscapeSeq.esc_mode e = EscapeSeq.CSI ->
     Z.of_nat (length (EscapeSeq.vals_ e)) >= EscapeSeq.maxvals ->
     c = 0x3b \/ (EscapeSeq.is_final c = true /\ EscapeSeq.val_ e <> None) ->
     EscapeSeq.parse c e = (EscapeSeq.reset e, EscapeSeq.fail)) /\
  (forall (c : Z) (e : EscapeSeq.t),
     snd (EscapeSeq.parse c e) = EscapeSeq.fail ->
     fst (EscapeSeq.parse c e) = EscapeSeq.reset e /\
     EscapeSeq.idle (EscapeSeq.reset e) /\
     EscapeSeq.parse_in_progress (EscapeSeq.reset e) = false) /\
  (forall e : EscapeSeq.t,
     snd (EscapeSeq.parse EscapeSeq.ESC (EscapeSeq.reset e)) = EscapeSeq.success /\
     EscapeSeq.buff_ (fst (EscapeSeq.parse EscapeSeq.ESC (EscapeSeq.reset e)))
       = [EscapeSeq.ESC]) /\
  (forall (c c' : Z) (tty : t),
     ansi_ tty = true ->
     EscapeSeq.parse_in_progress (escseq tty) = true ->
     PartialUtf8Buf.buflen (pub_ tty) = 0 ->
     snd (EscapeSeq.parse c (escseq tty)) = EscapeSeq.fail ->
     0 <= c < 128 -> 0 <= c' < 128 -> c' <> EscapeSeq.ESC -> is_ctrl c' = false ->
     feed tty c = with_escseq (EscapeSeq.reset (escseq tty)) tty /\
     append [c; c'] tty
       = print_char [c'] (with_escseq (EscapeSeq.reset (escseq tty)) tty)) /\
  EscapeSeq.parse_all (0x1b :: 0x5b :: replicate 79 0x31) EscapeSeq.ctor
    = (EscapeSeq.ctor, EscapeSeq.fail) /\
  EscapeSeq.parse_all (0x1b :: 0x5b :: concat (replicate 21 [0x31; 0x3b])) EscapeSeq.ctor
    = (EscapeSeq.ctor, EscapeSeq.fail).
Proof.
  split; [reflexivity|]. split; [reflexivity|].
  split; [intros bs; apply (parse_all_bounded bs), ctor_bounded|].
  split; [intros c e; apply parse_full_buffer_fails|].
  split.
  { intros c e Hmode Hfull Hc. unfold EscapeSeq.esc_mode in Hmode.
    assert (Hv : EscapeSeq.append_val e = None).
    { destruct (append_val_cases e) as [[Hlt _] | [_ Hnone]]; [lia | exact Hnone]. }
    unfold EscapeSeq.parse. rewrite Hmode. cbn [Z.eqb EscapeSeq.CSI EscapeSeq.ESC Pos.eqb].
    destruct Hc as [-> | [Hfin Hval]].
    - cbn. rewrite Hv. reflexivity.
    - destruct (EscapeSeq.is_digit c) eqn:Hd.
      { unfold EscapeSeq.is_digit, EscapeSeq.is_final in *. lia. }
      destruct (c =? 59) eqn:H59.
      { rewrite Hv. reflexivity. }
      destruct (c =? 63) eqn:H63.
      { unfold EscapeSeq.is_final in Hfin. lia. }
      rewrite Hfin. destruct (EscapeSeq.val_ e); [|contradiction].
      rewrite Hv. reflexivity. }
  split.
  { intros c e Hf. rewrite (parse_fail_resets _ _ Hf).
    split; [reflexivity|]. split; [apply reset_idle | reflexivity]. }
  split; [intros e; split; reflexivity|].
  split.
  { intros c c' tty Hansi Hprog Hpub Hf Hc Hc' Hesc Hctrl.
    assert (Hfeed : feed tty c = with_escseq (EscapeSeq.reset (escseq tty)) tty).
    { rewrite (feed_ascii c tty Hpub Hc).
      apply dispatch_failed_sequence; assumption. }
    split; [exact Hfeed|].
    unfold Terminal.append. cbn [fold_left]. rewrite Hfeed.
    rewrite feed_ascii by (cbn; assumption).
    apply dispatch_idle_prints; [reflexivity | assumption | assumption]. }
  split; vm_compute; reflexivity.
Qed.

(** The euro sign offered to a terminal with no character in progress:
    its lead byte waits in the partial buffer, and the three bytes go to
    the dispatch as one character when the last one arrives. *)
Lemma append_euro_sign (tty : t) (b0 b1 b2 b3 b4 b5 b6 b7 b8 b9 : Z) (cl : Z) :
  pub_ tty = PartialUtf8Buf.mk [b0; b1; b2; b3; b4; b5; b6; b7; b8; b9] 0 cl ->
  append [0xe2] tty
    = with_pub (PartialUtf8Buf.mk [0xe2; b1; b2; b3; b4; b5; b6; b7; b8; b9] 1 3) tty /\
  append [0xe2; 0x82] tty
    = with_pub (PartialUtf8Buf.mk [0xe2; 0x82; b2; b3; b4; b5; b6; b7; b8; b9] 2 3) tty /\
  append [0xe2; 0x82; 0xac] tty
    = (let tty1 := dispatch [0xe2; 0x82; 0xac]
                     (with_pub (PartialUtf8Buf.mk
                                  [0xe2; 0x82; 0xac; b3; b4; b5; b6; b7; b8; b9] 3 3) tty) in
       with_pub (PartialUtf8Buf.clear (pub_ tty1)) tty1).
Proof.
  intros Hpub. unfold Terminal.append, Terminal.feed, start_char.
  cbn [fold_left]. rewrite Hpub. repeat split.
Qed.

End TerminalFacts.

(* --------------------------------------------------------------------- *)
(** ** The euro sign on a small terminal                                   *)
(* --------------------------------------------------------------------- *)

Section EuroSign.
Import Terminal.

(** The euro sign sent in two calls: after the first call nothing is
    shown and the lead byte waits in the partial buffer; after the second
    the cell under the cursor holds the three bytes and the cursor has
    moved by one column, as after one call with the three bytes. *)
Lemma euro_sign_in_two_calls :
  text_at_disp 0 0 (append_text [0xe2] small) = Some [32] /\
  Cursor.col_ (cursor_ (append_text [0xe2] small)) = 0 /\
  PartialUtf8Buf.bytes (pub_ (append_text [0xe2] small)) = [0xe2] /\
  text_at_disp 0 0 (append_text [0x82; 0xac] (append_text [0xe2] small))
    = Some [0xe2; 0x82; 0xac] /\
  Cursor.col_ (cursor_ (append_text [0x82; 0xac] (append_text [0xe2] small))) = 1 /\
  PartialUtf8Buf.buflen (pub_ (append_text [0x82; 0xac] (append_text [0xe2] small))) = 0 /\
  append_text [0x82; 0xac] (append_text [0xe2] small)
    = append_text [0xe2; 0x82; 0xac] small.
Proof. vm_compute. repeat split. Qed.

(** Text that fills the last row wraps and scrolls the ring by one row:
    the first row moves into the history. *)
Lemma wrap_scrolls_into_history :
  let tty := append_text [0x61; 0x62; 0x63; 0x64; 0x65; 0x66; 0x67; 0x68] small in
  RingBuffer.hist_use (ring_ tty) = 1 /\
  RingBuffer.offset (ring_ tty) = 1 /\
  Cursor.row_ (cursor_ tty) = 1 /\ Cursor.col_ (cursor_ tty) = 0 /\
  text_at_disp 0 0 tty = Some [0x65] /\
  text_at_disp 1 0 tty = Some [32].
Proof. vm_compute. repeat split. Qed.

End EuroSign.

(* --------------------------------------------------------------------- *)
(** ** Further properties of the inline code of the header                 *)
(* --------------------------------------------------------------------- *)

Section MorePartialUtf8Buf.
Import PartialUtf8Buf.

Lemma append_loop_app (p1 : list Z) : forall (b : t) (p2 : list Z) (n2 : nat),
  append_loop b (p1 ++ p2) (length p1 + n2)
  = append_loop (append_loop b p1 (length p1)) p2 n2.
Proof.
  induction p1 as [|c p1 IH]; intros b p2 n2.
  - reflexivity.
  - cbn [length app Nat.add append_loop]. apply IH.
Qed.

(** X1. The partial buffer does not see how its input was cut: when the
    bytes of two calls of [append] fit together (the buffered length plus
    both lengths is below 10), the two calls leave the buffer that one call
    with the concatenated bytes leaves, and both report [true]. *)
Theorem append_in_two_calls (utf8len : Z -> Z) (b : t) (p1 p2 : list Z) (len2 : Z) :
  wf b -> p1 <> [] -> 0 < len2 -> len2 <= Z.of_nat (length p2) ->
  buflen_ b + Z.of_nat (length p1) + len2 < sizeof_buf ->
  append utf8len p2 len2 (fst (append utf8len p1 (Z.of_nat (length p1)) b))
  = append utf8len (p1 ++ p2) (Z.of_nat (length p1) + len2) b /\
  snd (append utf8len p1 (Z.of_nat (length p1)) b) = true /\
  snd (append utf8len (p1 ++ p2) (Z.of_nat (length p1) + len2) b) = true.
Proof.
  intros [Hsz Hbl] Hp1 Hlen2 Hp2 Hfit.
  assert (Hl1 : 0 < Z.of_nat (length p1)) by (destruct p1; [contradiction | simpl; lia]).
  unfold append.
  destruct (Z.of_nat (length p1) <=? 0) eqn:E1; [lia|].
  destruct (buflen_ b + Z.of_nat (length p1) >=? sizeof_buf) eqn:E2; [lia|].
  destruct (Z.of_nat (length p1) + len2 <=? 0) eqn:E3; [lia|].
  destruct (buflen_ b + (Z.of_nat (length p1) + len2) >=? sizeof_buf) eqn:E4; [lia|].
  destruct (len2 <=? 0) eqn:E5; [lia|].
  cbn [fst snd].
  set (b1 := if buflen_ b =? 0 then mk (buf_ b) (buflen_ b) (utf8len (hd 0 p1)) else b).
  assert (Hhd : hd 0 (p1 ++ p2) = hd 0 p1) by (destruct p1; [contradiction | reflexivity]).
  rewrite Hhd. fold b1.
  assert (Hb1 : buf_ b1 = buf_ b /\ buflen_ b1 = buflen_ b).
  { unfold b1. destruct (buflen_ b =? 0); auto. }
  destruct Hb1 as [Hbuf Hbl1].
  rewrite Nat2Z.id.
  destruct (append_loop_spec (length p1) b1 p1) as (H1 & _).
  { lia. } { lia. } { rewrite Hbuf, Hbl1. lia. }
  rewrite H1, Hbl1.
  destruct (buflen_ b + Z.of_nat (length p1) + len2 >=? sizeof_buf) eqn:E6; [lia|].
  destruct (buflen_ b + Z.of_nat (length p1) =? 0) eqn:E7; [lia|].
  replace (Z.to_nat (Z.of_nat (length p1) + len2))
    with (length p1 + Z.to_nat len2)%nat by lia.
  rewrite append_loop_app. repeat split.
Qed.

Lemma append_in_two_calls_witness :
  let b := ctor (replicate 10 0) in
  append fl_utf8len [0x82; 0xac] 2 (fst (append fl_utf8len [0xe2] 1 b))
  = append fl_utf8len ([0xe2] ++ [0x82; 0xac]) (1 + 2) b /\
  snd (append fl_utf8len [0xe2] 1 b) = true /\
  snd (append fl_utf8len ([0xe2] ++ [0x82; 0xac]) (1 + 2) b) = true.
Proof.
  intros b.
  apply (append_in_two_calls fl_utf8len b [0xe2] [0x82; 0xac] 2).
  - subst b. unfold wf, sizeof_buf. simpl. lia.
  - discriminate.
  - lia.
  - simpl. lia.
  - subst b. unfold sizeof_buf. simpl. lia.
Defined.

(** X2. Continuation bytes: a byte is a continuation byte of UTF-8
    exactly when it lies between 0x80 and 0xbf; no ASCII byte and no lead
    byte is one. *)
Theorem is_continuation_range (c : Z) :
  0 <= c < 256 ->
  is_continuation c = ((0x80 <=? c) && (c <=? 0xbf)).
Proof.
  intros Hc. apply eqb_prop.
  apply (byte_cases (fun c => eqb (is_continuation c) ((0x80 <=? c) && (c <=? 0xbf))));
    [vm_compute; reflexivity | exact Hc].
Qed.

Lemma is_continuation_range_witness :
  is_continuation 0xac = ((0x80 <=? 0xac) && (0xac <=? 0xbf)).
Proof. apply (is_continuation_range 0xac). lia. Defined.

End MorePartialUtf8Buf.

Section MoreCharStyle.
Import CharStyle.

(** X3. SGR toggles: on a style whose attributes are a [uchar], switching
    an attribute on sets its bit and switching it off clears its bit, the
    other bits staying as they are; the double underline shares the bit of
    the underline, and the blink switch changes nothing. *)
Theorem sgr_toggles (s : t) :
  0 <= attrib_ s < 256 ->
  attrib_ (sgr_bold true s) = Z.lor (attrib_ s) Attrib.BOLD /\
  attrib_ (sgr_bold false s) = Z.land (attrib_ s) (255 - Attrib.BOLD) /\
  attrib_ (sgr_dim true s) = Z.lor (attrib_ s) Attrib.DIM /\
  attrib_ (sgr_dim false s) = Z.land (attrib_ s) (255 - Attrib.DIM) /\
  attrib_ (sgr_italic true s) = Z.lor (attrib_ s) Attrib.ITALIC /\
  attrib_ (sgr_italic false s) = Z.land (attrib_ s) (255 - Attrib.ITALIC) /\
  attrib_ (sgr_underline true s) = Z.lor (attrib_ s) Attrib.UNDERLINE /\
  attrib_ (sgr_underline false s) = Z.land (attrib_ s) (255 - Attrib.UNDERLINE) /\
  attrib_ (sgr_dbl_under true s) = attrib_ (sgr_underline true s) /\
  attrib_ (sgr_dbl_under false s) = attrib_ (sgr_underline false s) /\
  attrib_ (sgr_inverse true s) = Z.lor (attrib_ s) Attrib.INVERSE /\
  attrib_ (sgr_inverse false s) = Z.land (attrib_ s) (255 - Attrib.INVERSE) /\
  attrib_ (sgr_strike true s) = Z.lor (attrib_ s) Attrib.STRIKEOUT /\
  attrib_ (sgr_strike false s) = Z.land (attrib_ s) (255 - Attrib.STRIKEOUT) /\
  sgr_blink true s = s /\ sgr_blink false s = s.
Proof.
  intros Ha.
  pose (P := fun a : Z =>
    forallb (fun m =>
      (CInt.to_uchar (Z.lor a m) =? Z.lor a m)
      && (CInt.to_uchar (Z.land a (Z.lnot m)) =? Z.land a (255 - m)))
      [Attrib.BOLD; Attrib.DIM; Attrib.ITALIC; Attrib.UNDERLINE;
       Attrib.INVERSE; Attrib.STRIKEOUT]).
  assert (Hall : P (attrib_ s) = true).
  { apply byte_cases; [vm_compute; reflexivity | exact Ha]. }
  unfold P in Hall. cbn [forallb] in Hall.
  repeat rewrite andb_true_iff in Hall. repeat rewrite Z.eqb_eq in Hall.
  decompose [and] Hall.
  unfold sgr_bold, sgr_dim, sgr_italic, sgr_underline, sgr_dbl_under,
    sgr_inverse, sgr_strike, sgr_blink, onoff, with_attrib. cbn [attrib_].
  repeat split; try assumption; reflexivity.
Qed.

Lemma sgr_toggles_witness :
  let s := mk 0x09 0 0xffffff00 0 0xffffff00 0 0 14 16 4 8 in
  attrib_ (sgr_bold true s) = 0x09 /\
  attrib_ (sgr_bold false s) = 0x08 /\
  attrib_ (sgr_dim true s) = 0x0b /\
  attrib_ (sgr_dim false s) = 0x09 /\
  attrib_ (sgr_italic true s) = 0x0d /\
  attrib_ (sgr_italic false s) = 0x09 /\
  attrib_ (sgr_underline true s) = 0x09 /\
  attrib_ (sgr_underline false s) = 0x01 /\
  attrib_ (sgr_dbl_under true s) = 0x09 /\
  attrib_ (sgr_dbl_under false s) = 0x01 /\
  attrib_ (sgr_inverse true s) = 0x29 /\
  attrib_ (sgr_inverse false s) = 0x09 /\
  attrib_ (sgr_strike true s) = 0x89 /\
  attrib_ (sgr_strike false s) = 0x09 /\
  sgr_blink true s = s /\ sgr_blink false s = s.
Proof.
  intros s. apply (sgr_toggles s). simpl. lia.
Defined.

End MoreCharStyle.

(* --------------------------------------------------------------------- *)
(** ** Cursor: how the moves compose                                       *)
(* --------------------------------------------------------------------- *)

Lemma cursor_iter_right (n : nat) (c : Cursor.t) :
  0 <= Cursor.col_ c -> Cursor.col_ c + Z.of_nat n <= CInt.INT_MAX ->
  Nat.iter n Cursor.right c
  = Cursor.mk (Cursor.col_ c + Z.of_nat n) (Cursor.row_ c) (Cursor.h_ c)
      (Cursor.fgcolor_ c) (Cursor.bgcolor_ c).
Proof.
  intros Hc. induction n as [|n IH]; intros Hn.
  - destruct c. simpl. f_equal. lia.
  - rewrite Nat.iter_succ, IH by lia. unfold Cursor.right.
    cbn [Cursor.col_ Cursor.row_ Cursor.h_ Cursor.fgcolor_ Cursor.bgcolor_].
    rewrite to_int_id by (unfold CInt.INT_MIN; lia). f_equal. lia.
Qed.

Lemma cursor_iter_down (n : nat) (c : Cursor.t) :
  0 <= Cursor.row_ c -> Cursor.row_ c + Z.of_nat n <= CInt.INT_MAX ->
  Nat.iter n Cursor.down c
  = Cursor.mk (Cursor.col_ c) (Cursor.row_ c + Z.of_nat n) (Cursor.h_ c)
      (Cursor.fgcolor_ c) (Cursor.bgcolor_ c).
Proof.
  intros Hr. induction n as [|n IH]; intros Hn.
  - destruct c. simpl. f_equal. lia.
  - rewrite Nat.iter_succ, IH by lia. unfold Cursor.down.
    cbn [Cursor.col_ Cursor.row_ Cursor.h_ Cursor.fgcolor_ Cursor.bgcolor_].
    rewrite to_int_id by (unfold CInt.INT_MIN; lia). f_equal. lia.
Qed.

Lemma cursor_iter_left (n : nat) (c : Cursor.t) :
  0 <= Cursor.col_ c ->
  Nat.iter n Cursor.left c
  = Cursor.mk (Z.max 0 (Cursor.col_ c - Z.of_nat n)) (Cursor.row_ c) (Cursor.h_ c)
      (Cursor.fgcolor_ c) (Cursor.bgcolor_ c).
Proof.
  intros Hc. induction n as [|n IH].
  - destruct c. simpl in *. f_equal. lia.
  - rewrite Nat.iter_succ, IH. unfold Cursor.left. cbn.
    destruct (Z.max 0 (Cursor.col_ c - Z.of_nat n) >? 0) eqn:E; f_equal; lia.
Qed.

Lemma cursor_iter_up (n : nat) (c : Cursor.t) :
  0 <= Cursor.row_ c ->
  Nat.iter n Cursor.up c
  = Cursor.mk (Cursor.col_ c) (Z.max 0 (Cursor.row_ c - Z.of_nat n)) (Cursor.h_ c)
      (Cursor.fgcolor_ c) (Cursor.bgcolor_ c).
Proof.
  intros Hr. induction n as [|n IH].
  - destruct c. simpl in *. f_equal. lia.
  - rewrite Nat.iter_succ, IH. unfold Cursor.up. cbn.
    destruct (Z.max 0 (Cursor.row_ c - Z.of_nat n) >? 0) eqn:E; f_equal; lia.
Qed.

(** X4. Cursor moves: on a cursor with non-negative coordinates, [n]
    calls of [left()] leave the column at [max(0, col - n)] and [n] calls
    of [up()] the row at [max(0, row - n)]; [n] calls of [right()] leave
    the column at [col + n] and [n] calls of [down()] the row at
    [row + n], as long as these are at most [INT_MAX], the greatest value
    of the [int] that is incremented.  Within that bound, [n] moves right
    followed by [n] moves left, and [n] moves down followed by [n] moves
    up, give the cursor back, but [n] moves left followed by [n] moves
    right end at column [max(col, n)]: the clamp at the left edge is not
    undone. *)
Theorem cursor_moves_compose (c : Cursor.t) (n : nat) :
  0 <= Cursor.row_ c -> 0 <= Cursor.col_ c ->
  Cursor.row_ c + Z.of_nat n <= CInt.INT_MAX ->
  Cursor.col_ c + Z.of_nat n <= CInt.INT_MAX ->
  Cursor.col_ (Nat.iter n Cursor.left c) = Z.max 0 (Cursor.col_ c - Z.of_nat n) /\
  Cursor.row_ (Nat.iter n Cursor.up c) = Z.max 0 (Cursor.row_ c - Z.of_nat n) /\
  Cursor.col_ (Nat.iter n Cursor.right c) = Cursor.col_ c + Z.of_nat n /\
  Cursor.row_ (Nat.iter n Cursor.down c) = Cursor.row_ c + Z.of_nat n /\
  Nat.iter n Cursor.left (Nat.iter n Cursor.right c) = c /\
  Nat.iter n Cursor.up (Nat.iter n Cursor.down c) = c /\
  Cursor.col_ (Nat.iter n Cursor.right (Nat.iter n Cursor.left c))
    = Z.max (Cursor.col_ c) (Z.of_nat n) /\
  Cursor.row_ (Nat.iter n Cursor.down (Nat.iter n Cursor.up c))
    = Z.max (Cursor.row_ c) (Z.of_nat n).
Proof.
  intros Hr Hc Hrn Hcn.
  rewrite (cursor_iter_left n c Hc), (cursor_iter_up n c Hr),
    (cursor_iter_right n c Hc Hcn), (cursor_iter_down n c Hr Hrn).
  rewrite cursor_iter_left, cursor_iter_up by (cbn; lia).
  rewrite cursor_iter_right, cursor_iter_down by (cbn; lia).
  cbn [Cursor.col_ Cursor.row_ Cursor.h_ Cursor.fgcolor_ Cursor.bgcolor_].
  repeat split; try lia; destruct c; cbn in *; f_equal; lia.
Qed.

Lemma cursor_moves_compose_witness :
  let c := Cursor.mk 2 1 10 0xfffff000 0x00d00000 in
  Cursor.col_ (Nat.iter 5 Cursor.left c) = Z.max 0 (2 - 5) /\
  Cursor.row_ (Nat.iter 5 Cursor.up c) = Z.max 0 (1 - 5) /\
  Cursor.col_ (Nat.iter 5 Cursor.right c) = 2 + 5 /\
  Cursor.row_ (Nat.iter 5 Cursor.down c) = 1 + 5 /\
  Nat.iter 5 Cursor.left (Nat.iter 5 Cursor.right c) = c /\
  Nat.iter 5 Cursor.up (Nat.iter 5 Cursor.down c) = c /\
  Cursor.col_ (Nat.iter 5 Cursor.right (Nat.iter 5 Cursor.left c)) = Z.max 2 5 /\
  Cursor.row_ (Nat.iter 5 Cursor.down (Nat.iter 5 Cursor.up c)) = Z.max 1 5.
Proof.
  intros c. apply (cursor_moves_compose c 5); unfold CInt.INT_MAX; simpl; lia.
Defined.

(* --------------------------------------------------------------------- *)
(** ** CharStyle: colour setters                                           *)
(* --------------------------------------------------------------------- *)

Section ColorSetters.
Import CharStyle.

Lemma flag_facts_hold (cf : Z) : 0 <= cf < 256 -> flag_facts cf = true.
Proof. apply byte_cases. vm_compute. reflexivity. Qed.

(** X5. Colour setters of CharStyle: on a style whose flags are a
    [uchar], [fgcolor(val)] stores the colour and clears the flag
    [FG_XTERM] only, [fgcolor_xterm(val)] stores it and sets that flag
    only, and likewise for the background with [BG_XTERM]; a foreground
    setter and a background setter commute, and of two foreground setters
    in a row only the last one shows. *)
Theorem color_setters (s : t) (v w : Z) :
  0 <= charflags_ s < 256 ->
  (fgcolor_ (fgcolor v s) = v /\
   charflags_ (fgcolor v s) = Z.land (charflags_ s) (255 - CharFlags.FG_XTERM)) /\
  (fgcolor_ (fgcolor_xterm v s) = v /\
   charflags_ (fgcolor_xterm v s) = Z.lor (charflags_ s) CharFlags.FG_XTERM) /\
  (bgcolor_ (bgcolor v s) = v /\
   charflags_ (bgcolor v s) = Z.land (charflags_ s) (255 - CharFlags.BG_XTERM)) /\
  (bgcolor_ (bgcolor_xterm v s) = v /\
   charflags_ (bgcolor_xterm v s) = Z.lor (charflags_ s) CharFlags.BG_XTERM) /\
  fgcolor v (bgcolor w s) = bgcolor w (fgcolor v s) /\
  fgcolor_xterm v (bgcolor_xterm w s) = bgcolor_xterm w (fgcolor_xterm v s) /\
  fgcolor v (bgcolor_xterm w s) = bgcolor_xterm w (fgcolor v s) /\
  fgcolor_xterm v (bgcolor w s) = bgcolor w (fgcolor_xterm v s) /\
  fgcolor v (fgcolor_xterm w s) = fgcolor v s /\
  fgcolor_xterm v (fgcolor w s) = fgcolor_xterm v s /\
  bgcolor v (bgcolor_xterm w s) = bgcolor v s /\
  bgcolor_xterm v (bgcolor w s) = bgcolor_xterm v s.
Proof.
  intros Hcf. pose proof (flag_facts_hold _ Hcf) as H.
  unfold flag_facts in H. cbv zeta in H.
  repeat rewrite andb_true_iff in H. repeat rewrite Z.eqb_eq in H.
  decompose [and] H. clear H.
  unfold fgcolor, bgcolor, fgcolor_xterm, bgcolor_xterm, set_charflag, clr_charflag,
    with_charflags, with_fgcolor, with_bgcolor, CharFlags.FG_XTERM, CharFlags.BG_XTERM.
  cbn [attrib_ charflags_ fgcolor_ bgcolor_ defaultfgcolor_ defaultbgcolor_
       fontface_ fontsize_ fontheight_ fontdescent_ charwidth_].
  change (255 - 1) with 254. change (255 - 2) with 253.
  repeat split; try assumption; f_equal; assumption.
Qed.

Lemma color_setters_witness :
  let s := mk 0x09 0x06 0xffffff00 0 0xffffff00 0 0 14 16 4 8 in
  (fgcolor_ (fgcolor 0xff000000 s) = 0xff000000 /\
   charflags_ (fgcolor 0xff000000 s) = 0x06) /\
  (fgcolor_ (fgcolor_xterm 0xff000000 s) = 0xff000000 /\
   charflags_ (fgcolor_xterm 0xff000000 s) = 0x07) /\
  (bgcolor_ (bgcolor 0xff000000 s) = 0xff000000 /\
   charflags_ (bgcolor 0xff000000 s) = 0x04) /\
  (bgcolor_ (bgcolor_xterm 0xff000000 s) = 0xff000000 /\
   charflags_ (bgcolor_xterm 0xff000000 s) = 0x06) /\
  fgcolor 0xff000000 (bgcolor 0xff00 s) = bgcolor 0xff00 (fgcolor 0xff000000 s) /\
  fgcolor_xterm 0xff000000 (bgcolor_xterm 0xff00 s)
    = bgcolor_xterm 0xff00 (fgcolor_xterm 0xff000000 s) /\
  fgcolor 0xff000000 (bgcolor_xterm 0xff00 s)
    = bgcolor_xterm 0xff00 (fgcolor 0xff000000 s) /\
  fgcolor_xterm 0xff000000 (bgcolor 0xff00 s)
    = bgcolor 0xff00 (fgcolor_xterm 0xff000000 s) /\
  fgcolor 0xff000000 (fgcolor_xterm 0xff00 s) = fgcolor 0xff000000 s /\
  fgcolor_xterm 0xff000000 (fgcolor 0xff00 s) = fgcolor_xterm 0xff000000 s /\
  bgcolor 0xff000000 (bgcolor_xterm 0xff00 s) = bgcolor 0xff000000 s /\
  bgcolor_xterm 0xff000000 (bgcolor 0xff00 s) = bgcolor_xterm 0xff000000 s.
Proof.
  intros s. apply (color_setters s 0xff000000 0xff00). simpl. lia.
Defined.

(** The reset written out: every field of the style after [sgr_reset]. *)
Lemma sgr_reset_fields (s : t) :
  sgr_reset s
  = mk Attrib.NORMAL (charflags_ (sgr_reset s)) (defaultfgcolor_ s) (defaultbgcolor_ s)
       (defaultfgcolor_ s) (defaultbgcolor_ s) (fontface_ s) (fontsize_ s)
       (fontheight_ s) (fontdescent_ s) (charwidth_ s).
Proof.
  unfold sgr_reset.
  destruct (negb (Z.land (charflags_ (attrib Attrib.NORMAL s)) CharFlags.FG_XTERM =? 0));
  match goal with
  | |- context [if ?b then _ else _] => destruct b
  end; reflexivity.
Qed.

(** X6. SGR reset twice: on a style whose flags are a [uchar],
    [sgr_reset] leaves the flags [FG_XTERM] and [BG_XTERM] (and every
    other flag) as they were, so a colour that was an xterm colour is
    replaced by the default colour marked as an xterm colour; a second
    reset changes nothing. *)
Theorem sgr_reset_idempotent (s : t) :
  0 <= charflags_ s < 256 ->
  charflags_ (sgr_reset s) = charflags_ s /\
  sgr_reset (sgr_reset s) = sgr_reset s.
Proof.
  intros Hcf. pose proof (sgr_reset_keeps_charflags s Hcf) as Hk.
  split; [exact Hk|].
  rewrite (sgr_reset_fields (sgr_reset s)).
  rewrite sgr_reset_keeps_charflags by (rewrite Hk; exact Hcf).
  rewrite (sgr_reset_fields s) at 7. rewrite Hk.
  rewrite (sgr_reset_fields s). cbn. rewrite Hk. reflexivity.
Qed.

Lemma sgr_reset_idempotent_witness :
  let s := mk 0x09 0x03 0xff000000 0x0000ff00 0xffffff00 0 0 14 16 4 8 in
  charflags_ (sgr_reset s) = 0x03 /\
  sgr_reset (sgr_reset s) = sgr_reset s.
Proof.
  intros s. apply (sgr_reset_idempotent s). simpl. lia.
Defined.

End ColorSetters.

(* --------------------------------------------------------------------- *)
(** ** Colours: rgb values, colour cube and gray ramp                      *)
(* --------------------------------------------------------------------- *)

(** Bits set below a shifted value add up. *)
Lemma lor_mul_pow2_add (hi lo k : Z) :
  0 <= k -> 0 <= lo < 2 ^ k ->
  Z.lor (hi * 2 ^ k) lo = hi * 2 ^ k + lo.
Proof.
  intros Hk Hlo.
  assert (Hdisj : Z.land (hi * 2 ^ k) lo = 0).
  { apply Z.bits_inj'. intros n Hn.
    rewrite Z.land_spec, Z.bits_0, <- Z.shiftl_mul_pow2 by exact Hk.
    destruct (Z.ltb_spec n k) as [Hlt | Hge].
    - rewrite Z.shiftl_spec_low by exact Hlt. reflexivity.
    - destruct (Z.eq_dec lo 0) as [-> | Hnz].
      + rewrite Z.bits_0. apply andb_false_r.
      + rewrite (Z.bits_above_log2 lo n), andb_false_r; [reflexivity | lia |].
        apply Z.lt_le_trans with k; [|exact Hge].
        apply Z.log2_lt_pow2; lia. }
  rewrite <- Z.lxor_lor by exact Hdisj.
  symmetry. apply Z.add_nocarry_lxor. exact Hdisj.
Qed.

(** The packing of three bytes, as [CharStyle::fgcolor(r,g,b)] does it
    and as [fl_rgb_color] does it. *)
Lemma pack_by_shifts (r g b : Z) :
  0 <= r < 256 -> 0 <= g < 256 -> 0 <= b < 256 ->
  Z.lor (Z.lor (Z.shiftl r 24) (Z.shiftl g 16)) (Z.shiftl b 8)
    = r * 16777216 + g * 65536 + b * 256 /\
  Z.shiftl (Z.lor (Z.shiftl (Z.lor (Z.shiftl r 8) g) 8) b) 8
    = r * 16777216 + g * 65536 + b * 256.
Proof.
  intros Hr Hg Hb.
  rewrite !Z.shiftl_mul_pow2 by lia.
  change (2 ^ 24) with 16777216. change (2 ^ 16) with 65536. change (2 ^ 8) with 256.
  split.
  - replace (r * 16777216) with (r * 256 * 2 ^ 16) by (change (2 ^ 16) with 65536; lia).
    replace (g * 65536) with (g * 2 ^ 16) by (change (2 ^ 16) with 65536; lia).
    assert (H1 : Z.lor (r * 256 * 2 ^ 16) (g * 2 ^ 16) = (r * 256 + g) * 2 ^ 16).
    { rewrite <- !Z.shiftl_mul_pow2 by lia. rewrite <- Z.shiftl_lor.
      f_equal. replace (r * 256) with (r * 2 ^ 8) by (change (2 ^ 8) with 256; lia).
      rewrite lor_mul_pow2_add by (change (2 ^ 8) with 256; lia). reflexivity. }
    rewrite H1. rewrite lor_mul_pow2_add by (change (2 ^ 16) with 65536; lia).
    change (2 ^ 16) with 65536. lia.
  - replace (r * 256) with (r * 2 ^ 8) by (change (2 ^ 8) with 256; lia).
    rewrite lor_mul_pow2_add by (change (2 ^ 8) with 256; lia).
    replace ((r * 2 ^ 8 + g) * 256) with ((r * 2 ^ 8 + g) * 2 ^ 8)
      by (change (2 ^ 8) with 256; lia).
    rewrite lor_mul_pow2_add by (change (2 ^ 8) with 256; lia).
    change (2 ^ 8) with 256. lia.
Qed.

Lemma land_255 (x : Z) : Z.land x 255 = x mod 256.
Proof. change 255 with (Z.ones 8). rewrite Z.land_ones by lia. reflexivity. Qed.

(** The components of a packed colour. *)
Lemma unpack_components (r g b : Z) :
  0 <= r < 256 -> 0 <= g < 256 -> 0 <= b < 256 ->
  let c := r * 16777216 + g * 65536 + b * 256 in
  Color.red c = r /\ Color.green c = g /\ Color.blue c = b /\ Color.index c = 0 /\
  CInt.to_color c = c.
Proof.
  intros Hr Hg Hb c. unfold Color.red, Color.green, Color.blue, Color.index, CInt.to_color.
  rewrite !land_255, !Z.shiftr_div_pow2 by lia.
  change (2 ^ 24) with 16777216. change (2 ^ 16) with 65536. change (2 ^ 8) with 256.
  assert (H24 : c / 16777216 = r).
  { symmetry. apply (Z.div_unique c 16777216 r (g * 65536 + b * 256)); unfold c; lia. }
  assert (H16 : c / 65536 = r * 256 + g).
  { symmetry. apply (Z.div_unique c 65536 (r * 256 + g) (b * 256)); unfold c; lia. }
  assert (H8 : c / 256 = r * 65536 + g * 256 + b).
  { symmetry. apply (Z.div_unique c 256 (r * 65536 + g * 256 + b) 0); unfold c; lia. }
  rewrite H24, H16, H8.
  repeat split.
  - apply Z.mod_small. lia.
  - symmetry. apply (Z.mod_unique (r * 256 + g) 256 r g); lia.
  - symmetry. apply (Z.mod_unique (r * 65536 + g * 256 + b) 256 (r * 256 + g) b); lia.
  - symmetry. apply (Z.mod_unique c 256 (r * 65536 + g * 256 + b) 0); unfold c; lia.
  - apply Z.mod_small. unfold c. lia.
Qed.

(** X7. [fl_rgb_color]: for three bytes that are not all zero the colour
    is [0xrrggbb00]: its red, green and blue components are the three
    bytes and its index byte is 0, so it is no colour of the colour map
    (it is at least 256); for three zeros the result is the colour [FL_BLACK]
    of the colour map (56), not the rgb value 0.  The grayscale form is
    [fl_rgb_color(g, g, g)]. *)
Theorem fl_rgb_color_components (r g b : Z) :
  0 <= r < 256 -> 0 <= g < 256 -> 0 <= b < 256 ->
  Color.fl_rgb_color 0 0 0 = Color.FL_BLACK /\
  Color.fl_rgb_color_gs g = Color.fl_rgb_color g g g /\
  (if (r =? 0) && (g =? 0) && (b =? 0)
   then Color.fl_rgb_color r g b = 56
   else Color.fl_rgb_color r g b = r * 16777216 + g * 65536 + b * 256 /\
        Color.red (Color.fl_rgb_color r g b) = r /\
        Color.green (Color.fl_rgb_color r g b) = g /\
        Color.blue (Color.fl_rgb_color r g b) = b /\
        Color.index (Color.fl_rgb_color r g b) = 0 /\
        256 <= Color.fl_rgb_color r g b).
Proof.
  intros Hr Hg Hb.
  split; [reflexivity|]. split.
  { unfold Color.fl_rgb_color_gs, Color.fl_rgb_color.
    destruct (g =? 0); reflexivity. }
  unfold Color.fl_rgb_color.
  destruct ((r =? 0) && (g =? 0) && (b =? 0)) eqn:E; [reflexivity|].
  destruct (pack_by_shifts r g b Hr Hg Hb) as [_ ->].
  destruct (unpack_components r g b Hr Hg Hb) as (H1 & H2 & H3 & H4 & H5).
  cbv zeta in *. rewrite H5.
  repeat split; try assumption.
  rewrite !andb_false_iff, !Z.eqb_neq in E. lia.
Qed.

Lemma fl_rgb_color_components_witness :
  Color.fl_rgb_color 0 0 0 = Color.FL_BLACK /\
  Color.fl_rgb_color_gs 64 = Color.fl_rgb_color 64 64 64 /\
  Color.fl_rgb_color 127 64 0 = 127 * 16777216 + 64 * 65536 + 0 * 256 /\
  Color.red (Color.fl_rgb_color 127 64 0) = 127 /\
  Color.green (Color.fl_rgb_color 127 64 0) = 64 /\
  Color.blue (Color.fl_rgb_color 127 64 0) = 0 /\
  Color.index (Color.fl_rgb_color 127 64 0) = 0 /\
  256 <= Color.fl_rgb_color 127 64 0.
Proof.
  apply (fl_rgb_color_components 127 64 0); lia.
Defined.

(** X8. [CharStyle::fgcolor(r,g,b)] and [bgcolor(r,g,b)]: for three bytes
    the stored colour is [0xrrggbb00], the same value as
    [fl_rgb_color(r,g,b)] except for black, where [fl_rgb_color] gives the
    colour [FL_BLACK] of the colour map and the style stores the value 0;
    the components read back are the three bytes. *)
Theorem charstyle_rgb_colors (s : CharStyle.t) (r g b : Z) :
  0 <= r < 256 -> 0 <= g < 256 -> 0 <= b < 256 ->
  CharStyle.fgcolor_ (CharStyle.fgcolor_rgb r g b s) = r * 16777216 + g * 65536 + b * 256 /\
  CharStyle.bgcolor_ (CharStyle.bgcolor_rgb r g b s) = r * 16777216 + g * 65536 + b * 256 /\
  CharStyle.bgcolor_ (CharStyle.fgcolor_rgb r g b s) = CharStyle.bgcolor_ s /\
  CharStyle.fgcolor_ (CharStyle.bgcolor_rgb r g b s) = CharStyle.fgcolor_ s /\
  Color.red (CharStyle.fgcolor_ (CharStyle.fgcolor_rgb r g b s)) = r /\
  Color.green (CharStyle.fgcolor_ (CharStyle.fgcolor_rgb r g b s)) = g /\
  Color.blue (CharStyle.fgcolor_ (CharStyle.fgcolor_rgb r g b s)) = b /\
  CharStyle.fgcolor_ (CharStyle.fgcolor_rgb r g b s)
    = (if (r =? 0) && (g =? 0) && (b =? 0) then 0 else Color.fl_rgb_color r g b) /\
  CharStyle.fgcolor_ (CharStyle.fgcolor_rgb 0 0 0 s) = 0 /\
  Color.fl_rgb_color 0 0 0 = 56.
Proof.
  intros Hr Hg Hb.
  assert (Hrgb : CharStyle.rgb r g b = r * 16777216 + g * 65536 + b * 256).
  { unfold CharStyle.rgb. destruct (pack_by_shifts r g b Hr Hg Hb) as [-> _].
    apply (unpack_components r g b Hr Hg Hb). }
  destruct (unpack_components r g b Hr Hg Hb) as (H1 & H2 & H3 & H4 & H5).
  cbv zeta in *.
  unfold CharStyle.fgcolor_rgb, CharStyle.bgcolor_rgb, CharStyle.clr_charflag,
    CharStyle.with_charflags, CharStyle.with_fgcolor, CharStyle.with_bgcolor.
  cbn [CharStyle.fgcolor_ CharStyle.bgcolor_]. rewrite Hrgb.
  repeat split; try assumption.
  unfold Color.fl_rgb_color.
  destruct ((r =? 0) && (g =? 0) && (b =? 0)) eqn:E.
  - rewrite !andb_true_iff, !Z.eqb_eq in E. lia.
  - destruct (pack_by_shifts r g b Hr Hg Hb) as [_ ->]. symmetry. exact H5.
Qed.

Lemma charstyle_rgb_colors_witness :
  let s := CharStyle.mk 0 0x01 0xffffff00 0 0xffffff00 0 0 14 16 4 8 in
  CharStyle.fgcolor_ (CharStyle.fgcolor_rgb 127 64 0 s) = 127 * 16777216 + 64 * 65536 + 0 * 256 /\
  CharStyle.bgcolor_ (CharStyle.bgcolor_rgb 127 64 0 s) = 127 * 16777216 + 64 * 65536 + 0 * 256 /\
  CharStyle.bgcolor_ (CharStyle.fgcolor_rgb 127 64 0 s) = CharStyle.bgcolor_ s /\
  CharStyle.fgcolor_ (CharStyle.bgcolor_rgb 127 64 0 s) = CharStyle.fgcolor_ s /\
  Color.red (CharStyle.fgcolor_ (CharStyle.fgcolor_rgb 127 64 0 s)) = 127 /\
  Color.green (CharStyle.fgcolor_ (CharStyle.fgcolor_rgb 127 64 0 s)) = 64 /\
  Color.blue (CharStyle.fgcolor_ (CharStyle.fgcolor_rgb 127 64 0 s)) = 0 /\
  CharStyle.fgcolor_ (CharStyle.fgcolor_rgb 127 64 0 s) = Color.fl_rgb_color 127 64 0 /\
  CharStyle.fgcolor_ (CharStyle.fgcolor_rgb 0 0 0 s) = 0 /\
  Color.fl_rgb_color 0 0 0 = 56.
Proof.
  intros s. apply (charstyle_rgb_colors s 127 64 0); lia.
Defined.

(** X9. The colour map: [fl_color_cube(r,g,b)] for [r < FL_NUM_RED],
    [g < FL_NUM_GREEN], [b < FL_NUM_BLUE] is an index from 56 to 255 from
    which the three coordinates are read back (so different coordinates
    give different colours); [fl_gray_ramp(i)] for [i < FL_NUM_GRAY] is an
    index from 32 to 55, below the cube; and the named colours [FL_BLACK],
    [FL_RED], [FL_GREEN], [FL_YELLOW], [FL_BLUE], [FL_MAGENTA], [FL_CYAN]
    and [FL_WHITE] are the eight corners of the cube. *)
Theorem color_map_layout (r g b i : Z) :
  0 <= r < Color.FL_NUM_RED -> 0 <= g < Color.FL_NUM_GREEN ->
  0 <= b < Color.FL_NUM_BLUE -> 0 <= i < Color.FL_NUM_GRAY ->
  (Color.FL_COLOR_CUBE <= Color.fl_color_cube r g b <= 255 /\
   (Color.fl_color_cube r g b - Color.FL_COLOR_CUBE) mod 8 = g /\
   ((Color.fl_color_cube r g b - Color.FL_COLOR_CUBE) / 8) mod 5 = r /\
   (Color.fl_color_cube r g b - Color.FL_COLOR_CUBE) / 40 = b) /\
  (Color.FL_GRAY_RAMP <= Color.fl_gray_ramp i < Color.FL_COLOR_CUBE /\
   Color.fl_gray_ramp i - Color.FL_GRAY_RAMP = i) /\
  (Color.fl_color_cube 0 0 0 = Color.FL_BLACK /\
   Color.fl_color_cube 4 0 0 = Color.FL_RED /\
   Color.fl_color_cube 0 7 0 = Color.FL_GREEN /\
   Color.fl_color_cube 4 7 0 = Color.FL_YELLOW /\
   Color.fl_color_cube 0 0 4 = Color.FL_BLUE /\
   Color.fl_color_cube 4 0 4 = Color.FL_MAGENTA /\
   Color.fl_color_cube 0 7 4 = Color.FL_CYAN /\
   Color.fl_color_cube 4 7 4 = Color.FL_WHITE).
Proof.
  unfold Color.FL_NUM_RED, Color.FL_NUM_GREEN, Color.FL_NUM_BLUE, Color.FL_NUM_GRAY.
  intros Hr Hg Hb Hi.
  split; [|split; [|repeat split]].
  - unfold Color.fl_color_cube, Color.FL_NUM_RED, Color.FL_NUM_GREEN,
      Color.FL_COLOR_CUBE, CInt.to_color.
    rewrite Z.mod_small by lia.
    replace ((b * 5 + r) * 8 + g + 56 - 56) with ((b * 5 + r) * 8 + g) by lia.
    assert (H8 : ((b * 5 + r) * 8 + g) / 8 = b * 5 + r).
    { symmetry. apply (Z.div_unique _ 8 (b * 5 + r) g); lia. }
    rewrite H8. repeat split; try lia.
    + symmetry. apply (Z.mod_unique _ 8 (b * 5 + r) g); lia.
    + symmetry. apply (Z.mod_unique _ 5 b r); lia.
    + symmetry. apply (Z.div_unique _ 40 b (r * 8 + g)); lia.
  - unfold Color.fl_gray_ramp, Color.FL_GRAY_RAMP, Color.FL_COLOR_CUBE, CInt.to_color.
    rewrite Z.mod_small by lia. lia.
Qed.

Lemma color_map_layout_witness :
  (Color.FL_COLOR_CUBE <= Color.fl_color_cube 2 3 4 <= 255 /\
   (Color.fl_color_cube 2 3 4 - Color.FL_COLOR_CUBE) mod 8 = 3 /\
   ((Color.fl_color_cube 2 3 4 - Color.FL_COLOR_CUBE) / 8) mod 5 = 2 /\
   (Color.fl_color_cube 2 3 4 - Color.FL_COLOR_CUBE) / 40 = 4) /\
  (Color.FL_GRAY_RAMP <= Color.fl_gray_ramp 23 < Color.FL_COLOR_CUBE /\
   Color.fl_gray_ramp 23 - Color.FL_GRAY_RAMP = 23) /\
  (Color.fl_color_cube 0 0 0 = Color.FL_BLACK /\
   Color.fl_color_cube 4 0 0 = Color.FL_RED /\
   Color.fl_color_cube 0 7 0 = Color.FL_GREEN /\
   Color.fl_color_cube 4 7 0 = Color.FL_YELLOW /\
   Color.fl_color_cube 0 0 4 = Color.FL_BLUE /\
   Color.fl_color_cube 4 0 4 = Color.FL_MAGENTA /\
   Color.fl_color_cube 0 7 4 = Color.FL_CYAN /\
   Color.fl_color_cube 4 7 4 = Color.FL_WHITE).
Proof.
  apply (color_map_layout 2 3 4 23);
    unfold Color.FL_NUM_RED, Color.FL_NUM_GREEN, Color.FL_NUM_BLUE, Color.FL_NUM_GRAY; lia.
Defined.

(* --------------------------------------------------------------------- *)
(** ** Box types                                                           *)
(* --------------------------------------------------------------------- *)

Lemma boxtype_facts_hold (b : Z) : 0 <= b < 256 -> boxtype_facts b = true.
Proof. apply byte_cases. vm_compute. reflexivity. Qed.

(** X10. [fl_box], [fl_down] and [fl_frame] on the box types of the
    enumeration (0 to [FL_MAX_BOXTYPE]): each of the three is idempotent;
    [fl_box] and [fl_frame] undo each other ([fl_box(fl_frame(b))] is
    [fl_box(b)] and [fl_frame(fl_box(b))] is [fl_frame(b)]); [fl_down]
    commutes with both; [FL_NO_BOX] and [FL_FLAT_BOX] are left as they are
    by all three, and from [FL_UP_BOX] on [fl_box] gives a filled box,
    [fl_frame] a frame and [fl_down] an odd ("down") value.  [fl_box] and
    [fl_down] stay inside the enumeration, [fl_frame] does up to 253, and
    for the boxes 254 and 255 it gives 256 and 257. *)
Theorem boxtype_conversions (b : Z) :
  0 <= b <= Boxtype.FL_MAX_BOXTYPE ->
  (Boxtype.fl_box (Boxtype.fl_box b) = Boxtype.fl_box b /\
   Boxtype.fl_frame (Boxtype.fl_frame b) = Boxtype.fl_frame b /\
   Boxtype.fl_down (Boxtype.fl_down b) = Boxtype.fl_down b) /\
  (Boxtype.fl_box (Boxtype.fl_frame b) = Boxtype.fl_box b /\
   Boxtype.fl_frame (Boxtype.fl_box b) = Boxtype.fl_frame b) /\
  (Boxtype.fl_down (Boxtype.fl_box b) = Boxtype.fl_box (Boxtype.fl_down b) /\
   Boxtype.fl_down (Boxtype.fl_frame b) = Boxtype.fl_frame (Boxtype.fl_down b)) /\
  (if b <? Boxtype.FL_UP_BOX
   then Boxtype.fl_box b = b /\ Boxtype.fl_frame b = b /\ Boxtype.fl_down b = b
   else Boxtype.is_box (Boxtype.fl_box b) = true /\
        Boxtype.is_frame (Boxtype.fl_frame b) = true /\
        Z.odd (Boxtype.fl_down b) = true) /\
  (0 <= Boxtype.fl_box b <= Boxtype.FL_MAX_BOXTYPE /\
   0 <= Boxtype.fl_down b <= Boxtype.FL_MAX_BOXTYPE /\
   (if b <=? 253 then Boxtype.fl_frame b <= Boxtype.FL_MAX_BOXTYPE
    else Boxtype.fl_frame b = b + 2)).
Proof.
  unfold Boxtype.FL_MAX_BOXTYPE at 1. intros Hb.
  assert (H : boxtype_facts b = true) by (apply boxtype_facts_hold; lia).
  unfold boxtype_facts in H. cbv zeta in H.
  repeat rewrite andb_true_iff in H.
  destruct H as ((((((((((((((H1 & H2) & H3) & H4) & H5) & H6) & H7) & H8) & H9)
                       & H10) & H11) & H12) & H13) & H14) & H15).
  apply Z.eqb_eq in H1, H2, H3, H4, H5, H6, H7.
  apply Z.leb_le in H10, H11, H12, H13.
  repeat split; try assumption.
  - destruct (Z.ltb_spec b Boxtype.FL_UP_BOX) as [Hlt | Hge].
    + destruct (Z.leb_spec Boxtype.FL_UP_BOX b) as [Hle | _]; [lia|].
      cbn [orb] in H9. repeat rewrite andb_true_iff in H9.
      destruct H9 as [[Ha Hb'] Hc]. apply Z.eqb_eq in Ha, Hb', Hc. auto.
    + cbn [orb] in H8. repeat rewrite andb_true_iff in H8.
      destruct H8 as [[Ha Hb'] Hc]. auto.
  - destruct (Z.leb_spec b 253) as [Hle | Hgt].
    + destruct (Z.ltb_spec 253 b) as [Hlt | _]; [lia|].
      cbn [orb] in H15. apply Z.leb_le in H15. exact H15.
    + cbn [orb] in H14. apply orb_true_iff in H14. destruct H14 as [Hf | Hf].
      * assert (Hb2 : b = 254 \/ b = 255) by lia.
        destruct Hb2 as [-> | ->]; vm_compute in Hf; discriminate.
      * apply Z.eqb_eq in Hf. exact Hf.
Qed.

Lemma boxtype_conversions_witness :
  (Boxtype.fl_box (Boxtype.fl_box 12) = Boxtype.fl_box 12 /\
   Boxtype.fl_frame (Boxtype.fl_frame 12) = Boxtype.fl_frame 12 /\
   Boxtype.fl_down (Boxtype.fl_down 12) = Boxtype.fl_down 12) /\
  (Boxtype.fl_box (Boxtype.fl_frame 12) = Boxtype.fl_box 12 /\
   Boxtype.fl_frame (Boxtype.fl_box 12) = Boxtype.fl_frame 12) /\
  (Boxtype.fl_down (Boxtype.fl_box 12) = Boxtype.fl_box (Boxtype.fl_down 12) /\
   Boxtype.fl_down (Boxtype.fl_frame 12) = Boxtype.fl_frame (Boxtype.fl_down 12)) /\
  (Boxtype.is_box (Boxtype.fl_box 12) = true /\
   Boxtype.is_frame (Boxtype.fl_frame 12) = true /\
   Z.odd (Boxtype.fl_down 12) = true) /\
  (0 <= Boxtype.fl_box 12 <= Boxtype.FL_MAX_BOXTYPE /\
   0 <= Boxtype.fl_down 12 <= Boxtype.FL_MAX_BOXTYPE /\
   Boxtype.fl_frame 12 <= Boxtype.FL_MAX_BOXTYPE).
Proof.
  apply (boxtype_conversions 12). unfold Boxtype.FL_MAX_BOXTYPE. lia.
Defined.

(* --------------------------------------------------------------------- *)
(** ** RingBuffer: how history and display tile the ring                   *)
(* --------------------------------------------------------------------- *)



(* --------------------------------------------------------------------- *)
(** ** Selection: the cell of the last push                                *)
(* --------------------------------------------------------------------- *)


(* --------------------------------------------------------------------- *)
(** ** PartialUtf8Buf: what holds between calls                            *)
(* --------------------------------------------------------------------- *)

Section AssemblerRuns.
Import PartialUtf8Buf Utf8Calls.

Variable utf8len : Z -> Z.





End AssemblerRuns.


(* --------------------------------------------------------------------- *)
(** ** fl_encoding_mac_roman.cpp                                           *)
(* --------------------------------------------------------------------- *)

Lemma table_facts_hold (c : Z) : 0 <= c < 256 -> table_facts c = true.
Proof. apply byte_cases. vm_compute. reflexivity. Qed.

(** X14. The tables [roman2latin] and [latin2roman], as the two loops
    use them on a byte: both conversions give a byte, leave the ASCII
    bytes as they are and send the bytes above 127 to bytes above 127; and
    the two tables undo each other wherever a character exists on both
    sides: a MacRoman byte converted to Latin 1 and back is the same byte
    unless its Latin 1 image is the replacement character 0xbf, and a
    Latin 1 byte converted to MacRoman and back is the same byte unless its
    MacRoman image is the replacement character 0xc0. *)
Theorem mac_roman_tables (c : Z) :
  0 <= c < 256 ->
  0 <= MacRoman.to_local c < 256 /\ 0 <= MacRoman.to_roman c < 256 /\
  (c <= 127 -> MacRoman.to_local c = c /\ MacRoman.to_roman c = c) /\
  (127 < c -> 127 < MacRoman.to_local c /\ 127 < MacRoman.to_roman c) /\
  (MacRoman.to_local c <> 0xbf -> MacRoman.to_roman (MacRoman.to_local c) = c) /\
  (MacRoman.to_roman c <> 0xc0 -> MacRoman.to_local (MacRoman.to_roman c) = c).
Proof.
  intros Hc. pose proof (table_facts_hold c Hc) as H.
  unfold table_facts in H. cbv zeta in H.
  repeat rewrite andb_true_iff in H.
  destruct H as (((((((H1 & H2) & H3) & H4) & H5) & H6) & H7) & H8).
  apply Z.leb_le in H1, H3. apply Z.ltb_lt in H2, H4.
  apply orb_true_iff in H5, H6, H7, H8.
  split; [lia|]. split; [lia|]. repeat split.
  - destruct H5 as [H5 | H5]; [apply Z.ltb_lt in H5; lia|].
    apply andb_true_iff in H5. destruct H5 as [H5 _]. apply Z.eqb_eq in H5. exact H5.
  - destruct H5 as [H5 | H5]; [apply Z.ltb_lt in H5; lia|].
    apply andb_true_iff in H5. destruct H5 as [_ H5]. apply Z.eqb_eq in H5. exact H5.
  - destruct H6 as [H6 | H6]; [apply Z.leb_le in H6; lia|].
    apply andb_true_iff in H6. destruct H6 as [H6 _]. apply Z.ltb_lt in H6. exact H6.
  - destruct H6 as [H6 | H6]; [apply Z.leb_le in H6; lia|].
    apply andb_true_iff in H6. destruct H6 as [_ H6]. apply Z.ltb_lt in H6. exact H6.
  - intros Hne. destruct H7 as [H7 | H7]; apply Z.eqb_eq in H7; [contradiction | exact H7].
  - intros Hne. destruct H8 as [H8 | H8]; apply Z.eqb_eq in H8; [contradiction | exact H8].
Qed.

Lemma mac_roman_tables_witness :
  0 <= MacRoman.to_local 0x8e < 256 /\ 0 <= MacRoman.to_roman 0x8e < 256 /\
  (0x8e <= 127 -> MacRoman.to_local 0x8e = 0x8e /\ MacRoman.to_roman 0x8e = 0x8e) /\
  (127 < 0x8e -> 127 < MacRoman.to_local 0x8e /\ 127 < MacRoman.to_roman 0x8e) /\
  (MacRoman.to_local 0x8e <> 0xbf -> MacRoman.to_roman (MacRoman.to_local 0x8e) = 0x8e) /\
  (MacRoman.to_roman 0x8e <> 0xc0 -> MacRoman.to_local (MacRoman.to_roman 0x8e) = 0x8e).
Proof.
  apply (mac_roman_tables 0x8e). lia.
Defined.

(** The size of a new block: [(n + 257) & 0x7fffff00] is [n + 257]
    rounded down to a multiple of 256. *)
Lemma land_7fffff00 (x : Z) :
  0 <= x < 2 ^ 31 -> Z.land x 0x7fffff00 = 256 * (x / 256).
Proof.
  intros Hx.
  change 0x7fffff00 with (Z.ldiff (Z.ones 31) (Z.ones 8)).
  rewrite Z.ldiff_land, Z.land_assoc, <- Z.ldiff_land.
  rewrite Z.land_ones by lia. rewrite Z.mod_small by lia.
  rewrite Z.ldiff_ones_r by lia.
  rewrite Z.shiftl_mul_pow2, Z.shiftr_div_pow2 by lia.
  change (2 ^ 8) with 256. lia.
Qed.

Lemma block_size (m : Z) :
  0 <= m -> m + 257 < 2 ^ 31 ->
  m + 2 <= Z.land (m + 257) 0x7fffff00 <= m + 257.
Proof.
  intros Hm Hlt. rewrite land_7fffff00 by lia.
  pose proof (Z.div_mod (m + 257) 256 ltac:(lia)) as Hdm.
  pose proof (Z.mod_pos_bound (m + 257) 256 ltac:(lia)) as Hb.
  lia.
Qed.

Section MacRomanFacts.
Import MacRoman.

(** The length found by [strlen] is inside the text. *)
Lemma strlen_bound (t : list Z) : forall m : Z,
  strlen t = Some m -> 0 <= m < Z.of_nat (length t).
Proof.
  induction t as [|c t IH]; intros m H; [discriminate|].
  cbn [strlen] in H. destruct (c =? 0).
  - inversion H; subst. cbn [length]. lia.
  - destruct (strlen t) as [m'|]; [|discriminate].
    cbn in H. inversion H; subst. specialize (IH m' eq_refl). cbn [length]. lia.
Qed.

(** The loop of [mac_roman_to_local] inside the block: the [n] cells from
    [i] on get the converted bytes, the other cells are kept. *)
Lemma convert_loop_spec (n : nat) : forall (src : list Z) (dst : list (option Z)) (i : nat),
  (n <= length src)%nat -> (i + n <= length dst)%nat ->
  convert_loop src dst i n
  = Some (take i dst ++ map (fun c => Some (to_local c)) (take n src) ++ drop (i + n) dst).
Proof.
  induction n as [|n IH]; intros src dst i Hsrc Hdst.
  - rewrite Nat.add_0_r, take_0. cbn [map app]. rewrite take_drop.
    destruct src; reflexivity.
  - destruct src as [|c src]; [cbn in Hsrc; lia|].
    cbn [length] in Hsrc. cbn [convert_loop].
    destruct (Nat.ltb_spec i (length dst)) as [Hi | Hi]; [|lia].
    rewrite IH by (rewrite ?length_insert; lia).
    f_equal. rewrite (take_S_r _ _ (Some (to_local c)))
      by (apply list_lookup_insert_eq; exact Hi).
    rewrite take_insert_ge by lia. rewrite drop_insert_lt by lia.
    cbn [take map]. rewrite <- app_assoc. cbn [app].
    replace (i + S n)%nat with (S i + n)%nat by lia. reflexivity.
Qed.

(** The loop of [mac_roman_to_local] leaves the block when it has more
    turns than the block has cells left. *)
Lemma convert_loop_overrun (n : nat) : forall (src : list Z) (dst : list (option Z)) (i : nat),
  (length dst < i + n)%nat -> n <> O ->
  convert_loop src dst i n = None.
Proof.
  induction n as [|n IH]; intros src dst i Hlen Hn; [contradiction|].
  destruct src as [|c src]; [reflexivity|]. cbn [convert_loop].
  destruct (Nat.ltb_spec i (length dst)) as [Hi | Hi]; [|reflexivity].
  apply IH; [rewrite length_insert; lia | lia].
Qed.

(** The loop of [local_to_mac_roman]: however many turns, the first cell
    holds the conversion of the first byte and no other cell is written. *)
Lemma first_cell_loop_spec (c : Z) (src : list Z) (ds : list (option Z)) (n : nat) :
  forall d : option Z,
  first_cell_loop (c :: src) (d :: ds) (S n) = Some (Some (to_roman c) :: ds).
Proof.
  induction n as [|n IH]; intros d.
  - reflexivity.
  - change (first_cell_loop (c :: src) (d :: ds) (S (S n)))
      with (first_cell_loop (c :: src) (Some (to_roman c) :: ds) (S n)).
    apply IH.
Qed.

(** X15. [mac_roman_to_local(t, n)], for a text of [m] bytes ([m] is [n],
    or the length found by [strlen] when [n] is -1): when [m <= n_buf] a
    new block of [(m + 257) & 0x7fffff00] bytes is allocated, which is
    between [m + 2] and [m + 257], its first [m] bytes are the bytes of the
    text converted by [roman2latin], and the rest of the block is not
    written (there is no terminating NUL).  When [m > n_buf] no block is
    allocated, and the [m] bytes are written to the block of [n_buf] bytes
    of the call before, or through the null pointer when there was none:
    the run leaves the block. *)
Theorem mac_roman_to_local_converts (t : list Z) (n m : Z) (st : statics) :
  consistent st -> text_length t n = Some m -> 0 <= m ->
  m <= Z.of_nat (length t) -> m + 257 < 2 ^ 31 ->
  m + 2 <= Z.land (m + 257) 0x7fffff00 <= m + 257 /\
  mac_roman_to_local t n st =
    (if m <=? n_buf st
     then Some (mk (Some (map (fun c => Some (to_local c)) (take (Z.to_nat m) t)
                          ++ replicate (Z.to_nat (Z.land (m + 257) 0x7fffff00 - m)) None))
                   (Z.land (m + 257) 0x7fffff00))
     else None).
Proof.
  intros Hst Hlen Hm Ht Hlt.
  pose proof (block_size m Hm Hlt) as Hk. split; [exact Hk|].
  unfold mac_roman_to_local, convert. rewrite Hlen. unfold reserve.
  destruct (Z.leb_spec m (n_buf st)) as [Hle | Hgt].
  - cbv zeta. cbn [buf n_buf].
    destruct (Z.gtb_spec m 0) as [Hpos | Hzero].
    + rewrite convert_loop_spec by (rewrite ?length_replicate; lia).
      rewrite take_0, drop_replicate. cbn [app].
      replace (Z.to_nat (Z.land (m + 257) 2147483392) - (0 + Z.to_nat m))%nat
        with (Z.to_nat (Z.land (m + 257) 2147483392 - m)) by lia.
      reflexivity.
    + assert (m = 0) by lia. subst m. cbn [Z.to_nat take map app].
      rewrite Z.sub_0_r. reflexivity.
  - destruct (Z.gtb_spec m 0) as [Hpos | Hzero].
    + unfold consistent in Hst. destruct (buf st) as [dst|]; [|reflexivity].
      rewrite convert_loop_overrun; [reflexivity | lia | lia].
    + unfold consistent in Hst. destruct (buf st); lia.
Qed.

Lemma mac_roman_to_local_converts_witness :
  let st := mk (Some (replicate 256 None)) 256 in
  (2 + 2 <= Z.land (2 + 257) 0x7fffff00 <= 2 + 257 /\
   mac_roman_to_local [0x8e; 0x41; 0] (-1) st
   = Some (mk (Some ([Some 0xe9; Some 0x41] ++ replicate 254 None)) 256)) /\
  (300 + 2 <= Z.land (300 + 257) 0x7fffff00 <= 300 + 257 /\
   mac_roman_to_local (replicate 300 0x41) 300 st = None) /\
  (1 + 2 <= Z.land (1 + 257) 0x7fffff00 <= 1 + 257 /\
   mac_roman_to_local [0x41] 1 initial = None).
Proof.
  intros st. split; [|split].
  - apply (mac_roman_to_local_converts [0x8e; 0x41; 0] (-1) 2 st);
      [reflexivity | reflexivity | lia | cbn; lia | lia].
  - apply (mac_roman_to_local_converts (replicate 300 0x41) 300 300 st);
      [reflexivity | reflexivity | lia | rewrite length_replicate; lia | lia].
  - apply (mac_roman_to_local_converts [0x41] 1 1 initial);
      [reflexivity | reflexivity | lia | cbn; lia | lia].
Defined.

(** X16. [local_to_mac_roman(t, n)] converts one byte only.  For a text
    of [m >= 1] bytes with [m <= n_buf], a new block of
    [(m + 257) & 0x7fffff00] bytes is allocated and the loop, whose
    pointers never move, writes its first byte [m] times: the first byte
    of the block is the first byte of the text converted by [latin2roman],
    and no other byte of the block is written, whatever the length of the
    text. *)
Theorem local_to_mac_roman_first_byte (c : Z) (t : list Z) (n m : Z) (st : statics) :
  text_length (c :: t) n = Some m -> 1 <= m <= n_buf st -> m + 257 < 2 ^ 31 ->
  local_to_mac_roman (c :: t) n st
  = Some (mk (Some (Some (to_roman c)
                    :: replicate (Z.to_nat (Z.land (m + 257) 0x7fffff00 - 1)) None))
             (Z.land (m + 257) 0x7fffff00)).
Proof.
  intros Hlen Hm Hlt.
  pose proof (block_size m ltac:(lia) Hlt) as Hk.
  unfold local_to_mac_roman, convert. rewrite Hlen. unfold reserve.
  destruct (Z.leb_spec m (n_buf st)) as [_ | Hgt]; [|lia].
  cbv zeta. cbn [buf n_buf].
  destruct (Z.gtb_spec m 0) as [_ | Hzero]; [|lia].
  replace (Z.to_nat (Z.land (m + 257) 0x7fffff00))
    with (S (Z.to_nat (Z.land (m + 257) 0x7fffff00 - 1))) by lia.
  replace (Z.to_nat m) with (S (Z.to_nat (m - 1))) by lia.
  cbn [replicate]. rewrite first_cell_loop_spec. reflexivity.
Qed.

Lemma local_to_mac_roman_first_byte_witness :
  let st := mk (Some (replicate 256 None)) 256 in
  local_to_mac_roman [0xe9; 0x41; 0x42; 0] (-1) st
  = Some (mk (Some (Some (to_roman 0xe9)
                    :: replicate (Z.to_nat (Z.land (3 + 257) 0x7fffff00 - 1)) None))
             (Z.land (3 + 257) 0x7fffff00)).
Proof.
  intros st.
  apply (local_to_mac_roman_first_byte 0xe9 [0x41; 0x42; 0] (-1) 3 st);
    [reflexivity | cbn; lia | lia].
Defined.

End MacRomanFacts.
